(** * effect/__init__.py: the Effect dispatch engine

    A shallow embedding of [Effect], [ParallelEffects] and [parallel], and
    the properties of handler resolution, of the callback-chain walk, of the
    hand-off to a Deferred and of the combinators.

    Layout of the development:
    - Python values, exceptions and the call trace;
    - Deferreds, as far as the module relies on them;
    - the interpreter monad (world state, trace, raised exceptions, fuel);
    - [Effect.perform] and its helpers, named as in the source, and what
      the Deferred it may return fires with;
    - the object store on which the combinators ([on], [on_success], ...)
      allocate;
    - an example environment;
    - the properties: the store, handler resolution and the chain walk,
      the end of the walk, [parallel], and runs on the example. *)

From stdpp Require Import gmap strings list fin_maps sorting.

Set Default Proof Using "Type".
Open Scope string_scope.
Open Scope list_scope.

(** ** Python values *)

(** Python functions and lambdas are referred to by name; what a function
    does when it is called is given by the environment of the interpreter
    (see [apply_fn] below). *)
Definition fid := string.

(** One entry of [Effect.callbacks]: the tuple [(success, error)], either
    side possibly [None]. *)
Definition cbpair : Type := option fid * option fid.

(** What can sit in a callback slot of a Deferred: a Python function, the
    [lambda r: r] of [_chain_deferred], or the bound method
    [self._maybe_chain] together with its extra argument [handlers]. *)
Inductive dcallback :=
| DcFn (f : fid)
| DcIdentity
| DcMaybeChain (handlers : gmap string fid).

#[warnings="-register-all"]
Inductive value :=
| VNone
| VInt (z : Z)
| VStr (s : string)
| VList (items : list value)
| VTuple (items : list value)
| VType (cls : string)
| VException (cls : string) (args : list value)
| VTraceback
| VDict (handlers : gmap string fid)
| VObject (cls : string) (data : value) (perform_effect : option fid)
| VParallelEffects (effects : list value)
| VEffect (intent : value) (callbacks : list cbpair)
| VDeferred (d : Deferred)
with Deferred :=
| DPending (id : nat)
| DSucceed (v : value)
| DFail (failure : value)
| DGather (ds : list Deferred)
| DAddCallbacks (d : Deferred) (callback : dcallback) (errback : option dcallback).

(** [type(v)], by class name. The handler table is keyed by it. *)
Definition type_of (v : value) : string :=
  match v with
  | VNone => "NoneType"
  | VInt _ => "int"
  | VStr _ => "str"
  | VList _ => "list"
  | VTuple _ => "tuple"
  | VType _ => "type"
  | VException cls _ => cls
  | VTraceback => "traceback"
  | VDict _ => "dict"
  | VObject cls _ _ => cls
  | VParallelEffects _ => "ParallelEffects"
  | VEffect _ _ => "Effect"
  | VDeferred _ => "Deferred"
  end.

(** A raised exception: its class and the arguments it was built with. *)
Definition exn : Type := string * list value.

Definition exn_value (e : exn) : value := VException e.1 e.2.

(** [sys.exc_info()] inside an [except] block that caught [e]. *)
Definition exc_info (e : exn) : value :=
  VTuple [VType e.1; exn_value e; VTraceback].

Inductive outcome (A : Type) :=
| Ret (a : A)
| Raise (e : exn).
Arguments Ret {A} a.
Arguments Raise {A} e.

(** The trace records every call of a Python function made while an Effect
    is performed: the function, its arguments and how the call ended. *)
Inductive event :=
| EvCall (f : fid) (args : list value) (out : outcome value).

Definition ev_fn (ev : event) : fid := let 'EvCall f _ _ := ev in f.
Definition ev_args (ev : event) : list value := let 'EvCall _ a _ := ev in a.
Definition ev_out (ev : event) : outcome value := let 'EvCall _ _ o := ev in o.

(** ** The [raise] statement

    The module is Python 2 source ([from __future__ import print_function],
    Twisted Deferreds, [class Effect(object)]). In Python 2 a tuple given to
    [raise] is replaced, repeatedly, by its first item; Python 3 refuses
    anything that is not an exception. *)
Inductive py_version := Py2 | Py3.

Fixpoint raise_target (v : value) : value :=
  match v with
  | VTuple (x :: _) => raise_target x
  | _ => v
  end.

Definition raise_stmt (ver : py_version) (v : value) : exn :=
  match ver with
  | Py2 =>
      match raise_target v with
      | VException cls args => (cls, args)
      | VType cls => (cls, [])
      | _ => ("TypeError",
              [VStr "exceptions must be old-style classes or derived from BaseException"])
      end
  | Py3 =>
      match v with
      | VException cls args => (cls, args)
      | VType cls => (cls, [])
      | _ => ("TypeError", [VStr "exceptions must derive from BaseException"])
      end
  end.

(** [v[1:]] *)
Definition slice_from_1 (v : value) : outcome value :=
  match v with
  | VTuple items => Ret (VTuple (drop 1 items))
  | VList items => Ret (VList (drop 1 items))
  | VStr s => Ret (VStr (match s with EmptyString => s | String _ s' => s' end))
  | _ => Raise ("TypeError", [VStr "object is not subscriptable"])
  end.

(** ** Deferreds

    Twisted's [Deferred], [maybeDeferred] and [gatherResults] are imported,
    not defined, by the module. A Deferred is kept as the term that says how
    it was built: where it comes from and the callback pairs attached to it
    so far, oldest first. Deferreds are the values that have the attributes
    [addCallback] and [addCallbacks]. *)

(** Modelled from the spec: the operation that attaches a success and an
    error continuation together. It returns the Deferred it was called
    on, now with one more pair. *)
Definition addCallbacks (d : Deferred) (callback : dcallback)
    (errback : option dcallback) : Deferred :=
  DAddCallbacks d callback errback.

(** Modelled from the spec: the operation that attaches one success
    continuation; a failure passes it by. *)
Definition addCallback (d : Deferred) (callback : dcallback) : Deferred :=
  addCallbacks d callback None.

(** Modelled from the spec: the way to combine a sequence of Deferreds into
    one Deferred of the aggregate results. *)
Definition gatherResults (ds : list Deferred) : Deferred := DGather ds.

(** The callback pairs attached to a Deferred, oldest first, and the
    Deferred they were attached to. *)
Fixpoint attached (d : Deferred) : list (dcallback * option dcallback) :=
  match d with
  | DAddCallbacks d' cb eb => attached d' ++ [(cb, eb)]
  | _ => []
  end.

Fixpoint origin (d : Deferred) : Deferred :=
  match d with
  | DAddCallbacks d' _ _ => origin d'
  | _ => d
  end.

(** Modelled from the spec: what a Deferred has fired with, a result or a
    failure. *)
Inductive fired :=
| Succeeded (result : value)
| Failed (failure : value).

(** Modelled from the spec: the bookkeeping of an aggregate over [k]
    children. Each outcome is stored at the position of its child, whenever
    it arrives; the first failure to arrive fails the aggregate; with all
    [k] results in, the aggregate succeeds with their list. An aggregate
    with an empty position has not fired. *)
Definition store_results (k : nat) (rs : list (nat * fired))
    : list (option fired) :=
  foldl (λ slots r, <[r.1 := Some r.2]> slots) (replicate k None) rs.

(** Modelled from the spec: if any child fails, the aggregate fails; the
    failure it reports is the first to arrive. *)
Fixpoint first_failure (rs : list (nat * fired)) : option (nat * value) :=
  match rs with
  | [] => None
  | (i, Failed failure) :: _ => Some (i, failure)
  | _ :: rs => first_failure rs
  end.

(** Modelled from the spec: what the aggregate fires with once the
    outcomes [rs] have arrived, if it fires. *)
Definition gathered (k : nat) (rs : list (nat * fired)) : option fired :=
  match first_failure rs with
  | Some (i, failure) =>
      Some (Failed (VException "FirstError" [failure; VInt (Z.of_nat i)]))
  | None =>
      (λ vs, Succeeded (VList vs))
        <$> mapM (λ slot, match slot with
                          | Some (Succeeded v) => Some v
                          | _ => None
                          end) (store_results k rs)
  end.

(** Modelled from the spec: what [maybeDeferred] makes of the outcome of
    the call. A raised fault becomes a failed Deferred rather than an
    immediate raise, a returned Deferred is passed on, any other value is
    wrapped in a Deferred that has already succeeded. *)
Definition to_deferred (out : outcome value) : Deferred :=
  match out with
  | Ret (VDeferred d) => d
  | Ret v => DSucceed v
  | Raise e => DFail (exn_value e)
  end.

(** ** The interpreter monad *)

Section Interp.
Context {World : Type}.

Record state := State { world : World; trace : list event }.

(** A computation runs from a state and either gives nothing ([None]: it
    ran out of fuel, or it waits for a Deferred that never fires) or ends,
    returning or raising, in a new state. *)
Definition M (A : Type) : Type := state → option (outcome A * state).

Definition mret {A} (a : A) : M A := λ s, Some (Ret a, s).
Definition mraise {A} (e : exn) : M A := λ s, Some (Raise e, s).
Definition mbind {A B} (m : M A) (k : A → M B) : M B :=
  λ s, match m s with
       | None => None
       | Some (Ret a, s') => k a s'
       | Some (Raise e, s') => Some (Raise e, s')
       end.
Definition out_of_fuel {A} : M A := λ _, None.

(** [try: return on_ok(m) except: return on_exc(sys.exc_info())] *)
Definition mtry {A B} (m : M A) (on_ok : A → B) (on_exc : exn → B) : M B :=
  λ s, match m s with
       | None => None
       | Some (Ret a, s') => Some (Ret (on_ok a), s')
       | Some (Raise e, s') => Some (Ret (on_exc e), s')
       end.

(** The environment: what each Python function does on a list of
    arguments in a world. Arity errors are the function's own business:
    a function called with the wrong number of arguments raises
    [TypeError]. *)
Variable apply_fn : fid → list value → World → outcome value * World.
Variable ver : py_version.

Definition call_fn (f : fid) (args : list value) : M value :=
  λ s, let '(out, w) := apply_fn f args (world s) in
       Some (out, State w (trace s ++ [EvCall f args out])).

(** *** Callables

    What [Effect.perform] may end up calling: a callback of a pair, the
    [partial(handlers[type(intent)], intent)] built from a table entry, or
    the bound method [intent.perform_effect]. *)
Inductive callable :=
| CFunction (f : fid)
| CPartial (f : fid) (bound : list value)
| CBoundMethod (f : fid) (self : value)
| CParallelPerformEffect (effects : list value).

(** A pair of [Effect.callbacks] as a step of the chain. *)
Definition lift_pair (p : cbpair) : option callable * option callable :=
  (CFunction <$> p.1, CFunction <$> p.2).

(** [getattr(intent, 'perform_effect', None)] *)
Definition getattr_perform_effect (intent : value) : option callable :=
  match intent with
  | VObject _ _ (Some f) => Some (CBoundMethod f intent)
  | VParallelEffects effects => Some (CParallelPerformEffect effects)
  | _ => None
  end.

(** Modelled from the spec: [maybeDeferred(f, *args)] makes the call and
    returns a Deferred whatever the outcome. *)
Definition maybeDeferred (m : M value) : M Deferred :=
  λ s, match m s with
       | None => None
       | Some (out, s') => Some (Ret (to_deferred out), s')
       end.

Section Walk.
(** [Effect.perform] on the Effects met while walking a chain. *)
Variable perform_ : value → list cbpair → gmap string fid → M value.

(** The list comprehension of [ParallelEffects.perform_effect]:
    [[maybeDeferred(e.perform, handlers) for e in self.effects]].
    Looking up [e.perform] on something that is not an Effect raises
    [AttributeError]. *)
Fixpoint perform_children (effects : list value)
    (handlers : gmap string fid) : M (list Deferred) :=
  match effects with
  | [] => mret []
  | e :: rest =>
      match e with
      | VEffect intent callbacks =>
          mbind (maybeDeferred (perform_ intent callbacks handlers)) (λ d,
          mbind (perform_children rest handlers) (λ ds,
          mret (d :: ds)))
      | _ => mraise ("AttributeError",
                     [VStr "object has no attribute 'perform'"])
      end
  end.

Definition ParallelEffects_perform_effect (effects : list value)
    (args : list value) : M value :=
  match args with
  | [VDict handlers] =>
      mbind (perform_children effects handlers) (λ ds,
      mret (VDeferred (gatherResults ds)))
  | _ => mraise ("TypeError", [VStr "perform_effect(self, handlers)"])
  end.

Definition call (c : callable) (args : list value) : M value :=
  match c with
  | CFunction f => call_fn f args
  | CPartial f bound => call_fn f (bound ++ args)
  | CBoundMethod f self => call_fn f (self :: args)
  | CParallelPerformEffect effects =>
      ParallelEffects_perform_effect effects args
  end.

Definition _maybe_chain (result : value) (handlers : gmap string fid)
    : M value :=
  match result with
  | VDeferred d => mret (VDeferred (addCallback d (DcMaybeChain handlers)))
  | VEffect intent callbacks => perform_ intent callbacks handlers
  | _ => mret result
  end.

Definition _dispatch_callback (callback : callable) (argument : value)
    : M (bool * value) :=
  mtry (call callback [argument])
       (λ v, (false, v))
       (λ e, (true, exc_info e)).

Fixpoint _chain_deferred (deferred : Deferred) (callbacks : list cbpair)
    : Deferred :=
  match callbacks with
  | [] => deferred
  | (cb, eb) :: rest =>
      let cb := match cb with None => DcIdentity | Some f => DcFn f end in
      _chain_deferred (addCallbacks deferred cb (DcFn <$> eb)) rest
  end.

(** The [for] loop of [_dispatch_callback_chain], from the step at
    [callback_index] on; [steps] are the pairs of
    [[(init_func, None)] + self.callbacks] not yet visited. *)
Fixpoint chain_loop (self_callbacks : list cbpair)
    (handlers : gmap string fid) (callback_index : nat)
    (steps : list (option callable * option callable))
    (is_error : bool) (result : value) : M value :=
  match steps with
  | [] =>
      if is_error
      then match slice_from_1 result with
           | Ret v => mraise (raise_stmt ver v)
           | Raise e => mraise e
           end
      else mret result
  | (success, error) :: rest =>
      let cb := if negb is_error then success else error in
      match cb with
      | None =>
          chain_loop self_callbacks handlers (S callback_index) rest
                     is_error result
      | Some cb =>
          mbind (_dispatch_callback cb result) (λ '(is_error, result),
          mbind (_maybe_chain result handlers) (λ result,
          match result with
          | VDeferred d =>
              mret (VDeferred
                      (_chain_deferred d (drop callback_index self_callbacks)))
          | _ =>
              chain_loop self_callbacks handlers (S callback_index) rest
                         is_error result
          end))
      end
  end.

(** What is left of one iteration of the loop once the selected callback
    has been dispatched and has given [r = (is_error, result)]. *)
Definition after_dispatch (self_callbacks : list cbpair)
    (handlers : gmap string fid) (callback_index : nat)
    (rest : list (option callable * option callable))
    (r : bool * value) : M value :=
  mbind (_maybe_chain r.2 handlers) (λ result,
    match result with
    | VDeferred d =>
        mret (VDeferred
                (_chain_deferred d (drop callback_index self_callbacks)))
    | _ =>
        chain_loop self_callbacks handlers (S callback_index) rest
                   r.1 result
    end).

Definition chain_steps (init_func : callable) (callbacks : list cbpair)
    : list (option callable * option callable) :=
  (Some init_func, None) :: (lift_pair <$> callbacks).

(** [_dispatch_callback_chain(self, chain, init_func, handlers)]; the
    source walks [self.callbacks] and does not use [chain]. *)
Definition _dispatch_callback_chain (self_callbacks : list cbpair)
    (chain : list cbpair) (init_func : callable)
    (handlers : gmap string fid) : M value :=
  chain_loop self_callbacks handlers 0
             (chain_steps init_func self_callbacks)
             false (VDict handlers).

End Walk.

(** [Effect.perform]. The fuel bounds the nesting of performances: a
    callback may return an Effect whose callbacks return Effects, and so
    on without end. *)
Fixpoint perform (fuel : nat) (intent : value) (callbacks : list cbpair)
    (handlers : gmap string fid) : M value :=
  match fuel with
  | O => out_of_fuel
  | S fuel =>
      let func :=
        match handlers !! type_of intent with
        | Some h => Some (CPartial h [intent])
        | None => None
        end in
      let func :=
        match func with
        | None => getattr_perform_effect intent
        | Some _ => func
        end in
      match func with
      | None => mraise ("NoEffectHandlerError", [intent])
      | Some func =>
          _dispatch_callback_chain (perform fuel) callbacks callbacks func
                                   handlers
      end
  end.

(** *** What a Deferred fires with *)

Section Resolve.
(** What each Deferred made by a handler is eventually fired with, and
    when the child at each position of a [gatherResults] completes. *)
Variable completes : nat → fired.
Variable finish_time : nat → nat.

(** Modelled from the spec: the children of an aggregate complete in the
    order of their completion times. *)
Definition completion_order (ds : list Deferred) : list nat :=
  @merge_sort nat (λ i j, (finish_time i ≤ finish_time j)%nat)
    (λ i j, decide (finish_time i ≤ finish_time j)%nat)
    (seq 0 (length ds)).

(** Modelled from the spec: awaiting the children in the order [order];
    the outcome of each is noted with the position of the child. *)
Fixpoint resolve_in_order (resolve_ : Deferred → M fired)
    (ds : list Deferred) (order : list nat) : M (list (nat * fired)) :=
  match order with
  | [] => mret []
  | i :: order =>
      match ds !! i with
      | Some d =>
          mbind (resolve_ d) (λ r,
          mbind (resolve_in_order resolve_ ds order) (λ rs,
          mret ((i, r) :: rs)))
      | None => resolve_in_order resolve_ ds order
      end
  end.

(** Modelled from the spec: what a callback slot does when the Deferred
    reaches it. *)
Definition call_dcallback (perform_ : value → list cbpair → gmap string fid → M value)
    (cb : dcallback) (arg : value) : M value :=
  match cb with
  | DcFn f => call_fn f [arg]
  | DcIdentity => mret arg
  | DcMaybeChain handlers => _maybe_chain perform_ arg handlers
  end.

(** Modelled from the spec: a Deferred fires with a result or a failure.
    A pending Deferred fires with what completes it. An aggregate awaits
    all its children and fires with the list of their results, in the order
    of the input sequence; if a child fails, it fails. Attached pairs run
    oldest first: the callback on a result, the errback on a failure (an
    absent errback passes the failure on); a raised fault becomes a failure
    and a returned Deferred is awaited in turn. *)
Fixpoint resolve (fuel : nat) (d : Deferred) : M fired :=
  match fuel with
  | O => out_of_fuel
  | S fuel =>
      let run (cb : dcallback) (arg : value) : M fired :=
        λ s, match call_dcallback (perform fuel) cb arg s with
             | None => None
             | Some (Raise e, s') => Some (Ret (Failed (exn_value e)), s')
             | Some (Ret (VDeferred d'), s') => resolve fuel d' s'
             | Some (Ret v, s') => Some (Ret (Succeeded v), s')
             end in
      match d with
      | DPending id => mret (completes id)
      | DSucceed v => mret (Succeeded v)
      | DFail failure => mret (Failed failure)
      | DGather ds =>
          mbind (resolve_in_order (resolve fuel) ds (completion_order ds))
                (λ rs, λ s, (λ r, (Ret r, s)) <$> gathered (length ds) rs)
      | DAddCallbacks d callback errback =>
          mbind (resolve fuel d) (λ r,
            match r with
            | Succeeded v => run callback v
            | Failed failure =>
                match errback with
                | None => mret (Failed failure)
                | Some errback => run errback failure
                end
            end)
      end
  end.

(** The Deferred [d] fires with the result [v], whatever the state in
    which it is awaited. *)
Definition resolves_to (fuel : nat) (d : Deferred) (v : value) : Prop :=
  ∀ s, ∃ s', resolve fuel d s = Some (Ret (Succeeded v), s').

End Resolve.

(** The children of a [ParallelEffects] performed one after the other, in
    the order of the list, against one handler table. *)
Fixpoint run_children (fuel : nat) (handlers : gmap string fid)
    (children : list (value * list cbpair)) (st : state)
    : option (list (outcome value) * state) :=
  match children with
  | [] => Some ([], st)
  | (intent, callbacks) :: rest =>
      match perform fuel intent callbacks handlers st with
      | None => None
      | Some (out, st) =>
          match run_children fuel handlers rest st with
          | None => None
          | Some (outs, st) => Some (out :: outs, st)
          end
      end
  end.

End Interp.

Arguments state : clear implicits.
Arguments M : clear implicits.

(** ** The object store

    Effects are objects: [Effect(intent)] allocates one, and its
    [callbacks] attribute refers to a list object, which Python could share
    and mutate. The combinators are modelled on a store of such objects, so
    that what they leave untouched is a theorem and not an artefact of the
    model. Intents are inert data and stay values. *)

Definition loc := positive.

Inductive cell :=
| CEffect (intent : value) (callbacks : loc)
| CList (items : list cbpair).

Definition alloc (h : gmap loc cell) (c : cell) : loc * gmap loc cell :=
  let l := fresh (dom h) in (l, <[l := c]> h).

(** [Effect.__init__]: [self.intent = intent; self.callbacks = []] *)
Definition Effect_init (h : gmap loc cell) (intent : value)
    : loc * gmap loc cell :=
  let '(empty, h) := alloc h (CList []) in
  alloc h (CEffect intent empty).

(** [obj.callbacks = callbacks] *)
Definition set_callbacks (h : gmap loc cell) (obj : loc) (callbacks : loc)
    : gmap loc cell :=
  alter (λ c, match c with
              | CEffect intent _ => CEffect intent callbacks
              | CList _ => c
              end) obj h.

Definition with_callbacks (h : gmap loc cell) (intent : value)
    (callbacks : loc) : loc * gmap loc cell :=
  let '(eff, h) := Effect_init h intent in
  (eff, set_callbacks h eff callbacks).

(** [self.callbacks + [(success, error)]]: the list display allocates a
    one-element list, [+] allocates the concatenation. *)
Definition on (h : gmap loc cell) (self : loc) (success error : option fid)
    : option (loc * gmap loc cell) :=
  match h !! self with
  | Some (CEffect intent callbacks) =>
      match h !! callbacks with
      | Some (CList items) =>
          let '(_, h) := alloc h (CList [(success, error)]) in
          let '(appended, h) := alloc h (CList (items ++ [(success, error)])) in
          Some (with_callbacks h intent appended)
      | _ => None
      end
  | _ => None
  end.

Definition on_success (h : gmap loc cell) (self : loc) (callback : fid) :=
  on h self (Some callback) None.

Definition on_error (h : gmap loc cell) (self : loc) (callback : fid) :=
  on h self None (Some callback).

Definition after (h : gmap loc cell) (self : loc) (callback : fid) :=
  on h self (Some callback) (Some callback).

(** [parallel(effects)]: [Effect(ParallelEffects(effects))] *)
Definition parallel (h : gmap loc cell) (effects : list value)
    : loc * gmap loc cell :=
  Effect_init h (VParallelEffects effects).

(** The Effect object at [e], read as a value: its intent and the items of
    the list its [callbacks] attribute refers to. *)
Definition snapshot (h : gmap loc cell) (e : loc) : option value :=
  match h !! e with
  | Some (CEffect intent callbacks) =>
      match h !! callbacks with
      | Some (CList items) => Some (VEffect intent items)
      | _ => None
      end
  | _ => None
  end.

(** Repeated [on]: attaching the pairs of a list, first to last. *)
Fixpoint attach (h : gmap loc cell) (e : loc) (pairs : list cbpair)
    : option (loc * gmap loc cell) :=
  match pairs with
  | [] => Some (e, h)
  | (success, error) :: rest =>
      match on h e success error with
      | Some (e', h') => attach h' e' rest
      | None => None
      end
  end.

(** [e.perform(handlers)] for the object at [e]. *)
Definition perform_obj {World} (apply_fn : fid → list value → World → outcome value * World)
    (ver : py_version) (fuel : nat) (h : gmap loc cell) (e : loc)
    (handlers : gmap string fid) : M World value :=
  match snapshot h e with
  | Some (VEffect intent callbacks) =>
      perform apply_fn ver fuel intent callbacks handlers
  | _ => mraise ("AttributeError", [VStr "object has no attribute 'perform'"])
  end.

(** ** [serialize]

    The basic Python data structures [serialize] builds: dicts with string
    keys (the entries in the order of the dict display), lists, class
    objects, the list of pairs of an Effect, and values passed on as they
    are. *)
#[warnings="-register-all"]
Inductive pydata :=
| PValue (v : value)
| PType (cls : string)
| PCallbacks (callbacks : list cbpair)
| PList (items : list pydata)
| PDict (entries : list (string * pydata)).

Definition no_serialize_attribute : exn :=
  ("AttributeError", [VStr "object has no attribute 'serialize'"]).

Section Serializing.
Context {World : Type}.
Variable apply_fn : fid → list value → World → outcome value * World.

(** The [serialize] method of an object that is neither an Effect nor a
    [ParallelEffects], when its class defines one. *)
Variable serialize_method : value → option fid.

(** [hasattr(v, 'serialize')] *)
Definition has_serialize (v : value) : bool :=
  match v with
  | VEffect _ _ | VParallelEffects _ => true
  | _ => bool_decide (is_Some (serialize_method v))
  end.

(** [v.serialize()]: [Effect.serialize] on an Effect,
    [ParallelEffects.serialize] on a [ParallelEffects], the method of its
    class on any other object, [AttributeError] when there is none. *)
Fixpoint serialize (v : value) : M World pydata :=
  match v with
  | VEffect intent callbacks =>
      mbind (if has_serialize intent
             then serialize intent
             else mret (PValue intent)) (λ intent,
      mret (PDict [("type", PType "Effect");
                   ("intent", intent);
                   ("callbacks", PCallbacks callbacks)]))
  | VParallelEffects effects =>
      mbind ((fix each (l : list value) : M World (list pydata) :=
                match l with
                | [] => mret []
                | e :: l =>
                    mbind (serialize e) (λ x,
                    mbind (each l) (λ xs,
                    mret (x :: xs)))
                end) effects) (λ xs,
      mret (PDict [("type", PType "ParallelEffects");
                   ("effects", PList xs)]))
  | _ =>
      match serialize_method v with
      | Some f => mbind (call_fn apply_fn f [v]) (λ r, mret (PValue r))
      | None => mraise no_serialize_attribute
      end
  end.

(** The list comprehension [[e.serialize() for e in self.effects]]. *)
Fixpoint serialize_each (l : list value) : M World (list pydata) :=
  match l with
  | [] => mret []
  | e :: l =>
      mbind (serialize e) (λ x,
      mbind (serialize_each l) (λ xs,
      mret (x :: xs)))
  end.

(** A call of the [serialize] method of an object, on that object. *)
Definition serialize_call (ev : event) : Prop :=
  ∃ x, ev_args ev = [x] ∧ serialize_method x = Some (ev_fn ev).

End Serializing.

(** A tree of Effects: what [parallel] and the combinators build. The
    intent of an Effect is any value; the members of a [ParallelEffects]
    are Effects or [ParallelEffects] again. *)
Fixpoint effect_tree (v : value) : Prop :=
  match v with
  | VEffect intent _ =>
      match intent with
      | VEffect _ _ | VParallelEffects _ => effect_tree intent
      | _ => True
      end
  | VParallelEffects effects =>
      (fix all (l : list value) : Prop :=
         match l with
         | [] => True
         | e :: l => effect_tree e ∧ all l
         end) effects
  | _ => False
  end.

Definition is_dict (p : pydata) : Prop :=
  match p with PDict _ => True | _ => False end.

(** ** Vocabulary of the statements *)

(** A value the walk passes on as it is: neither an Effect, which
    [_maybe_chain] performs, nor a Deferred, which ends the walk. *)
Definition plain (v : value) : Prop :=
  match v with
  | VEffect _ _ | VDeferred _ => False
  | _ => True
  end.

(** The events of [tr] form a chain of normal returns: the first call
    receives [args], each later call receives the value returned by the call
    before it, and [final] is what the last call returned. *)
Fixpoint chained (args : list value) (tr : list event) (final : value) : Prop :=
  match tr with
  | [] => args = [final]
  | ev :: tr' =>
      ev_args ev = args ∧ ∃ v, ev_out ev = Ret v ∧ chained [v] tr' final
  end.

Definition is_Effect (v : value) : Prop :=
  match v with VEffect _ _ => True | _ => False end.

Definition is_Deferred (v : value) : Prop :=
  match v with VDeferred _ => True | _ => False end.

(** The callback pair of a chain step, as [_chain_deferred] hands it to
    [addCallbacks]. *)
Definition slot (p : cbpair) : dcallback * option dcallback :=
  (match p.1 with None => DcIdentity | Some f => DcFn f end, DcFn <$> p.2).

(** ** An example environment

    A world that counts the calls made, and a few Python functions:
    [hA], [hB] and [hD] are handlers written for the table (they take the
    intent and the table; [hD] returns a pending Deferred), [unary] is a
    function of one argument. *)
Definition sample_fn (f : fid) (args : list value) (w : nat)
    : outcome value * nat :=
  match f, args with
  | "hA", [_; VDict _] => (Ret (VInt 1), S w)
  | "hB", [_; VDict _] => (Raise ("ValueError", [VStr "oh dear"]), S w)
  | "hD", [VObject _ (VInt n) _; VDict _] =>
      (Ret (VDeferred (DPending (Z.to_nat n))), S w)
  | "unary", [_] => (Ret (VInt 7), S w)
  | "inc", [VInt n] => (Ret (VInt (n + 1)), S w)
  | "mkB", [_] => (Ret (VEffect (VObject "B" VNone None) []), S w)
  | "mkA", [_] => (Ret (VEffect (VObject "A" VNone None) []), S w)
  | "mkD", [_] => (Ret (VDeferred (DPending 0)), S w)
  | "recover", [_] => (Ret (VInt 0), S w)
  | "boom", [_] => (Raise ("KeyError", [VStr "k"]), S w)
  | _, _ => (Raise ("TypeError", [VStr "wrong number of arguments"]), w)
  end.

Definition sample_table : gmap string fid :=
  {[ "A" := "hA"; "B" := "hB"; "D" := "hD"; "U" := "unary" ]}.

Definition intent_A : value := VObject "A" VNone None.
Definition intent_B : value := VObject "B" VNone None.
Definition intent_U : value := VObject "U" VNone None.
Definition intent_Z : value := VObject "Z" VNone None.

Definition sample_fault : exn := ("ValueError", [VStr "oh dear"]).

Definition is_int (v : value) : Prop := ∃ z, v = VInt z.

(** The state after [hB] has been called on [intent_B] from the initial
    state and has raised. *)
Definition sample_st1 : state nat :=
  State 1 [EvCall "hB" [intent_B; VDict sample_table] (Raise sample_fault)].

(** The state after [hA] has been called on [intent_A] from the initial
    state and has returned 1. *)
Definition sample_st2 : state nat :=
  State 1 [EvCall "hA" [intent_A; VDict sample_table] (Ret (VInt 1))].

Definition sample_pairs : list cbpair :=
  [(Some "inc", None); (Some "inc", Some "recover"); (Some "inc", None)].

Definition sample_pairs_deferred : list cbpair :=
  [(Some "mkD", None); (None, Some "recover"); (Some "inc", None)].

(** Two children for [parallel]: the first ends in a pending Deferred with
    a callback attached, the second returns at once. Pending Deferred [id]
    is fired with [100 + id], and the later child completes first. *)
Definition sample_children : list (value * list cbpair) :=
  [(VObject "D" (VInt 3) None, [(Some "inc", None)]); (intent_A, [])].

Definition sample_completes (id : nat) : fired :=
  Succeeded (VInt (100 + Z.of_nat id)).

Definition sample_finish_time (i : nat) : nat := 10 - i.

(** The outcome of a run and the functions it called, in order. *)
Definition summary (r : option (outcome value * state nat))
    : option (outcome value * list fid) :=
  (λ r, (r.1, ev_fn <$> trace r.2)) <$> r.

(** The example environment with three more functions: callbacks that
    return an Effect without handler and an Effect whose handler returns a
    Deferred, and a [serialize] method. *)
Definition sample_fn2 (f : fid) (args : list value) (w : nat)
    : outcome value * nat :=
  match f, args with
  | "mkZ", [_] => (Ret (VEffect intent_Z []), S w)
  | "mkED", [_] =>
      (Ret (VEffect (VObject "D" (VInt 3) None) [(Some "inc", None)]), S w)
  | "describe", [VObject cls _ _] => (Ret (VStr cls), S w)
  | _, _ => sample_fn f args w
  end.

(** Objects have the [serialize] method [describe]; nothing else has one. *)
Definition sample_method (v : value) : option fid :=
  match v with VObject _ _ _ => Some "describe" | _ => None end.

Definition no_method_at_all (v : value) : option fid := None.

(** What performing [Effect(D(3)).on_success(inc)] returns: the pending
    Deferred of the handler with [_maybe_chain] and the pair on it. *)
Definition sample_deferred : Deferred :=
  DAddCallbacks
    (DAddCallbacks (DPending 3) (DcMaybeChain sample_table) None)
    (DcFn "inc") None.

(** The state after [hA] and then a callback [f] returning [v] have been
    called from the initial state. *)
Definition sample_st3 (f : fid) (v : value) : state nat :=
  State 2 (trace sample_st2 ++ [EvCall f [VInt 1] (Ret v)]).

Definition sample_tree : value :=
  VEffect (VParallelEffects [VEffect intent_A []; VEffect (VInt 3) []])
          [(Some "inc", None)].

(** * Properties *)

(** ** The store: allocation never disturbs an existing object *)

Section Store.
Implicit Types (h : gmap loc cell) (l e : loc) (c : cell).

Lemma alloc_fresh h c : h !! (alloc h c).1 = None.
Proof. apply not_elem_of_dom, is_fresh. Qed.

Lemma alloc_lookup h c : (alloc h c).2 !! (alloc h c).1 = Some c.
Proof. apply lookup_insert_eq. Qed.

Lemma alloc_subseteq h c : h ⊆ (alloc h c).2.
Proof. apply insert_subseteq, (alloc_fresh h c). Qed.

Lemma alloc_fresh_mono h0 h c :
  h0 ⊆ h → h0 !! (alloc h c).1 = None.
Proof.
  intros Hsub. destruct (h0 !! (alloc h c).1) as [c0|] eqn:Hl; [|done].
  pose proof (lookup_weaken _ _ _ _ Hl Hsub) as Hin.
  by rewrite alloc_fresh in Hin.
Qed.

Lemma snapshot_weaken h h' e v :
  h ⊆ h' → snapshot h e = Some v → snapshot h' e = Some v.
Proof.
  unfold snapshot. intros Hsub Hs.
  destruct (h !! e) as [[intent cl|]|] eqn:He; try done.
  destruct (h !! cl) as [[|items]|] eqn:Hcl; try done.
  rewrite (lookup_weaken _ _ _ _ He Hsub).
  by rewrite (lookup_weaken _ _ _ _ Hcl Hsub).
Qed.

(** [Effect(intent)] is a new object with an empty list of its own. *)
Lemma Effect_init_spec h intent :
  h !! (Effect_init h intent).1 = None
  ∧ h ⊆ (Effect_init h intent).2
  ∧ snapshot (Effect_init h intent).2 (Effect_init h intent).1
    = Some (VEffect intent []).
Proof.
  unfold Effect_init.
  destruct (alloc h (CList [])) as [empty h1] eqn:H1.
  pose proof (alloc_subseteq h (CList [])) as Hsub1.
  pose proof (alloc_lookup h (CList [])) as Hl1.
  rewrite H1 in Hsub1, Hl1. simpl in Hsub1, Hl1.
  split; [by apply (alloc_fresh_mono h h1 (CEffect intent empty))|].
  split; [etrans; [done|apply alloc_subseteq]|].
  unfold snapshot. rewrite alloc_lookup.
  by rewrite (lookup_weaken _ _ _ _ Hl1 (alloc_subseteq h1 _)).
Qed.

(** [with_callbacks] builds a new object and rebinds the attribute of
    that object only. *)
Lemma with_callbacks_spec h intent cl items :
  h !! cl = Some (CList items) →
  h !! (with_callbacks h intent cl).1 = None
  ∧ h ⊆ (with_callbacks h intent cl).2
  ∧ snapshot (with_callbacks h intent cl).2 (with_callbacks h intent cl).1
    = Some (VEffect intent items).
Proof.
  intros Hcl. unfold with_callbacks.
  destruct (Effect_init_spec h intent) as (Hfresh & Hsub & Hsnap).
  destruct (Effect_init h intent) as [eff h1]. simpl in *.
  assert (Heff : ∃ l0, h1 !! eff = Some (CEffect intent l0)).
  { unfold snapshot in Hsnap.
    destruct (h1 !! eff) as [[i l0|]|]; try done.
    destruct (h1 !! l0) as [[|its]|]; try done.
    inversion Hsnap; subst. by eexists. }
  destruct Heff as [l0 Heff].
  assert (Hne : eff ≠ cl) by (intros ->; by rewrite Hfresh in Hcl).
  split; [done|]. split.
  - unfold set_callbacks. apply map_subseteq_spec. intros l c Hl.
    rewrite lookup_alter_ne; [by eapply lookup_weaken|].
    intros ->. by rewrite Hfresh in Hl.
  - unfold snapshot, set_callbacks.
    rewrite lookup_alter_eq, Heff. simpl.
    rewrite lookup_alter_ne by done.
    by rewrite (lookup_weaken _ _ _ _ Hcl Hsub).
Qed.

(** [on] succeeds on every Effect object; the Effect it returns is a new
    object, no existing object is modified, and the new Effect has the
    same intent and the old pairs followed by the new one. *)
Lemma on_spec h self success error intent items :
  snapshot h self = Some (VEffect intent items) →
  ∃ e' h', on h self success error = Some (e', h')
    ∧ h !! e' = None
    ∧ h ⊆ h'
    ∧ snapshot h' e' = Some (VEffect intent (items ++ [(success, error)])).
Proof.
  unfold snapshot, on. intros Hs.
  destruct (h !! self) as [[i cl|]|] eqn:He; try done.
  destruct (h !! cl) as [[|its]|] eqn:Hcl; try done.
  inversion Hs; subst i its; clear Hs.
  pose proof (alloc_subseteq h (CList [(success, error)])) as Hsub1.
  destruct (alloc h (CList [(success, error)])) as [tmp h1]. simpl in Hsub1.
  pose proof (alloc_subseteq h1 (CList (items ++ [(success, error)]))) as Hsub2.
  pose proof (alloc_lookup h1 (CList (items ++ [(success, error)]))) as Hl2.
  destruct (alloc h1 (CList (items ++ [(success, error)]))) as [app h2].
  simpl in Hsub2, Hl2.
  destruct (with_callbacks_spec h2 intent app _ Hl2) as (Hfresh & Hsub3 & Hsnap).
  destruct (with_callbacks h2 intent app) as [e' h'] eqn:Hw. simpl in *.
  exists e', h'. split; [done|].
  assert (Hsub : h ⊆ h2) by (etrans; done).
  split.
  { destruct (h !! e') as [c0|] eqn:Hl; [|done].
    pose proof (lookup_weaken _ _ _ _ Hl Hsub) as Hin. congruence. }
  split; [etrans; done|done].
Qed.

Lemma attach_spec pairs h e intent items :
  snapshot h e = Some (VEffect intent items) →
  ∃ e' h', attach h e pairs = Some (e', h')
    ∧ h ⊆ h'
    ∧ snapshot h' e' = Some (VEffect intent (items ++ pairs)).
Proof.
  revert h e items. induction pairs as [|[success error] pairs IH];
    intros h e items Hs; simpl.
  - exists e, h. by rewrite app_nil_r.
  - destruct (on_spec h e success error _ _ Hs) as (e1 & h1 & -> & _ & Hsub & Hs1).
    destruct (IH _ _ _ Hs1) as (e' & h' & Ha & Hsub' & Hs').
    exists e', h'. split; [done|]. split; [by etrans|].
    by rewrite <- app_assoc in Hs'.
Qed.

(** C8: [on_success], [on_error] and [after] are [on] with an absent
    side, an absent side and both sides; [on] on an Effect object gives a
    new object, with the same intent and the old pairs followed by the new
    pair, and leaves every existing object as it was: the original Effect
    reads, and therefore performs, as before. In particular an Effect
    just built by [Effect(intent)] still has no pair after any [on]. *)
Theorem C8_on_builds_new_effect_and_keeps_original
    h self intent items f success error :
  snapshot h self = Some (VEffect intent items) →
  on_success h self f = on h self (Some f) None
  ∧ on_error h self f = on h self None (Some f)
  ∧ after h self f = on h self (Some f) (Some f)
  ∧ ∃ e' h',
      on h self success error = Some (e', h')
      ∧ h !! e' = None
      ∧ h ⊆ h'
      ∧ snapshot h' e' = Some (VEffect intent (items ++ [(success, error)]))
      ∧ snapshot h' self = Some (VEffect intent items)
      ∧ (∀ World (apply_fn : fid → list value → World → outcome value * World)
           ver fuel handlers,
           perform_obj apply_fn ver fuel h' self handlers
           = perform_obj apply_fn ver fuel h self handlers)
      ∧ (items = [] →
         ∀ World (apply_fn : fid → list value → World → outcome value * World)
           ver fuel handlers,
           perform_obj apply_fn ver fuel h' self handlers
           = perform apply_fn ver fuel intent [] handlers).
Proof.
  intros Hs. do 3 (split; [done|]).
  destruct (on_spec h self success error _ _ Hs) as (e' & h' & Hon & Hf & Hsub & Hs').
  exists e', h'. do 4 (split; [done|]).
  pose proof (snapshot_weaken _ _ _ _ Hsub Hs) as Hs2.
  split; [done|]. split.
  - intros. unfold perform_obj. by rewrite Hs, Hs2.
  - intros ->. intros. unfold perform_obj. by rewrite Hs2.
Qed.

End Store.

(** ** Handler resolution and the chain walk *)

Section Properties.
Context {World : Type}.
Variable apply_fn : fid → list value → World → outcome value * World.
Variable ver : py_version.

Local Abbreviation perform' := (perform apply_fn ver).
Local Abbreviation loop n := (chain_loop apply_fn ver (perform apply_fn ver n)).
Local Abbreviation call' n := (call apply_fn (perform apply_fn ver n)).
Local Abbreviation dispatch n :=
  (_dispatch_callback apply_fn (perform apply_fn ver n)).
Local Abbreviation maybe_chain n := (_maybe_chain (perform apply_fn ver n)).
Local Abbreviation rest_of_step n :=
  (after_dispatch apply_fn ver (perform apply_fn ver n)).

Lemma chain_loop_skip n cbs handlers idx success error rest is_error res :
  (if negb is_error then success else error) = None →
  loop n cbs handlers idx ((success, error) :: rest) is_error res
  = loop n cbs handlers (S idx) rest is_error res.
Proof. intros Hsel. simpl. by rewrite Hsel. Qed.

Lemma chain_loop_step n cbs handlers idx success error rest is_error res cb st :
  (if negb is_error then success else error) = Some cb →
  loop n cbs handlers idx ((success, error) :: rest) is_error res st
  = mbind (dispatch n cb res) (rest_of_step n cbs handlers idx rest) st.
Proof.
  intros Hsel. simpl. rewrite Hsel. unfold mbind, after_dispatch.
  destruct (dispatch n cb res st) as [[[[b r]|e] st']|]; done.
Qed.

Lemma maybe_chain_plain n v handlers st :
  plain v → maybe_chain n v handlers st = Some (Ret v, st).
Proof. by destruct v. Qed.

Lemma after_dispatch_plain n cbs handlers idx rest b v st :
  plain v →
  rest_of_step n cbs handlers idx rest (b, v) st
  = loop n cbs handlers (S idx) rest b v st.
Proof.
  intros Hp. unfold after_dispatch, mbind. simpl.
  rewrite maybe_chain_plain by done. by destruct v.
Qed.

Lemma perform_unfold n intent cbs handlers :
  perform' (S n) intent cbs handlers
  = match match handlers !! type_of intent with
          | Some h => Some (CPartial h [intent])
          | None => getattr_perform_effect intent
          end with
    | None => mraise ("NoEffectHandlerError", [intent])
    | Some func =>
        _dispatch_callback_chain apply_fn ver (perform' n) cbs cbs func handlers
    end.
Proof. simpl. by destruct (handlers !! type_of intent). Qed.

Lemma dispatch_chain_unfold n cbs func handlers st :
  _dispatch_callback_chain apply_fn ver (perform' n) cbs cbs func handlers st
  = mbind (dispatch n func (VDict handlers))
          (rest_of_step n cbs handlers 0 (lift_pair <$> cbs)) st.
Proof. unfold _dispatch_callback_chain, chain_steps. by apply chain_loop_step. Qed.

(** A run of success-side callbacks that keep an invariant [P] of plain
    values: each non-absent success side is called once, in order, on the
    value returned before it. *)
Lemma success_run n cbs handlers (P : value → Prop) pairs :
  (∀ v, P v → plain v) →
  (∀ f v w, Some f ∈ pairs.*1 → P v →
            ∃ v' w', apply_fn f [v] w = (Ret v', w') ∧ P v') →
  ∀ idx v st, P v →
  ∃ final w' tr,
    loop n cbs handlers idx (lift_pair <$> pairs) false v st
    = Some (Ret final, State w' (trace st ++ tr))
    ∧ ev_fn <$> tr = omap fst pairs
    ∧ chained [v] tr final
    ∧ P final.
Proof.
  intros HP. induction pairs as [|[success error] pairs IH];
    intros Hcb idx v st Hv.
  - exists v, (world st), []. rewrite app_nil_r. by destruct st.
  - assert (Hcb' : ∀ f v w, Some f ∈ pairs.*1 → P v →
              ∃ v' w', apply_fn f [v] w = (Ret v', w') ∧ P v').
    { intros f v0 w Hin. apply Hcb. simpl. by right. }
    destruct success as [f|].
    + destruct (Hcb f v (world st)) as (v' & w' & Hf & Hv'); [by left|done|].
      rewrite fmap_cons.
      change (lift_pair (Some f, error))
        with (Some (CFunction f), CFunction <$> error).
      rewrite (chain_loop_step _ _ _ _ _ _ _ _ _ (CFunction f)) by done.
      unfold mbind, _dispatch_callback, mtry, call, call_fn.
      rewrite Hf. rewrite after_dispatch_plain by auto.
      destruct (IH Hcb' (S idx) v'
                  (State w' (trace st ++ [EvCall f [v] (Ret v')])) Hv')
        as (final & w'' & tr & Hrun & Hfn & Hch & Hfin).
      exists final, w'', (EvCall f [v] (Ret v') :: tr).
      simpl in Hrun. rewrite <- app_assoc in Hrun. simpl in Hrun.
      split; [done|]. split; [by rewrite fmap_cons, Hfn|]. split; [|done].
      simpl. split; [done|]. by exists v'.
    + rewrite fmap_cons.
      change (lift_pair (None, error))
        with (@None callable, CFunction <$> error).
      rewrite chain_loop_skip by done.
      destruct (IH Hcb' (S idx) v st Hv) as (final & w'' & tr & Hrun & Hfn & Hch & Hfin).
      by exists final, w'', tr.
Qed.

(** *** Fuel

    Fuel only bounds the nesting of performances: a result obtained with
    some fuel is the result with any larger amount. *)
Lemma perform_children_mono
    (p q : value → list cbpair → gmap string fid → M World value) :
  (∀ i c h s r, p i c h s = Some r → q i c h s = Some r) →
  ∀ effects handlers s r,
    perform_children p effects handlers s = Some r →
    perform_children q effects handlers s = Some r.
Proof.
  intros Hpq. induction effects as [|e effects IH]; intros handlers s r Hr;
    [done|].
  destruct e as [| | | | | | | | | | |intent cbs|]; try done. simpl in *.
  unfold mbind at 1, maybeDeferred in Hr. unfold mbind at 1, maybeDeferred.
  destruct (p intent cbs handlers s) as [[out s1]|] eqn:Hp; [|done].
  rewrite (Hpq _ _ _ _ _ Hp).
  unfold mbind in *.
  destruct (perform_children p effects handlers s1) as [[[ds|ex] s2]|] eqn:Hc;
    [| |done]; by rewrite (IH _ _ _ Hc).
Qed.

Lemma chain_loop_mono
    (p q : value → list cbpair → gmap string fid → M World value)
    cbs handlers :
  (∀ i c h s r, p i c h s = Some r → q i c h s = Some r) →
  ∀ steps idx is_error res s r,
    chain_loop apply_fn ver p cbs handlers idx steps is_error res s = Some r →
    chain_loop apply_fn ver q cbs handlers idx steps is_error res s = Some r.
Proof.
  intros Hpq. induction steps as [|[success error] steps IH];
    intros idx is_error res s r Hr; [done|].
  simpl in *. destruct (if negb is_error then success else error) as [cb|];
    [|by apply IH].
  unfold mbind at 1 in Hr. unfold mbind at 1.
  assert (Hd : ∀ x, _dispatch_callback apply_fn p cb res s = Some x →
                    _dispatch_callback apply_fn q cb res s = Some x).
  { intros x. unfold _dispatch_callback, mtry.
    destruct cb as [f|f bound|f self|effects]; try done. simpl.
    unfold ParallelEffects_perform_effect.
    destruct res as [| | | | | | | |table| | | |]; try done.
    unfold mbind.
    destruct (perform_children p effects table s) as [r0|] eqn:Hc; [|done].
    by rewrite (perform_children_mono p q Hpq _ _ _ _ Hc). }
  destruct (_dispatch_callback apply_fn p cb res s) as [[[[b v]|ex] s1]|] eqn:Hdp;
    try done; rewrite (Hd _ eq_refl); [|done].
  unfold mbind in *.
  assert (Hm : ∀ x, _maybe_chain p v handlers s1 = Some x →
                    _maybe_chain q v handlers s1 = Some x).
  { intros x. destruct v; try done. simpl. apply Hpq. }
  destruct (_maybe_chain p v handlers s1) as [[[v'|ex] s2]|] eqn:Hmp;
    try done; rewrite (Hm _ eq_refl); [|done].
  destruct v'; try done; by apply IH.
Qed.

Lemma perform_fuel_S n :
  ∀ intent cbs handlers s r,
    perform' n intent cbs handlers s = Some r →
    perform' (S n) intent cbs handlers s = Some r.
Proof.
  induction n as [|n IH]; intros intent cbs handlers s r Hr; [done|].
  rewrite perform_unfold in Hr. rewrite perform_unfold.
  destruct (match handlers !! type_of intent with
            | Some h => Some (CPartial h [intent])
            | None => getattr_perform_effect intent
            end) as [func|]; [|done].
  unfold _dispatch_callback_chain in *.
  by apply (chain_loop_mono (perform' n) (perform' (S n)) cbs handlers IH).
Qed.

Lemma perform_fuel_le n m intent cbs handlers s r :
  (n ≤ m)%nat →
  perform' n intent cbs handlers s = Some r →
  perform' m intent cbs handlers s = Some r.
Proof. induction 1; [done|]. intros Hr. by apply perform_fuel_S, IHle. Qed.

(** *** The trace only grows *)

Lemma call_fn_prefix f args (s : state World) out s' :
  call_fn apply_fn f args s = Some (out, s') →
  trace s `prefix_of` trace s'.
Proof.
  unfold call_fn. destruct (apply_fn f args (world s)) as [o w].
  intros [= _ <-]. simpl. by apply prefix_app_r.
Qed.

Lemma perform_children_prefix
    (p : value → list cbpair → gmap string fid → M World value) :
  (∀ i c h s out s', p i c h s = Some (out, s') →
                     trace s `prefix_of` trace s') →
  ∀ effects handlers s out s',
    perform_children p effects handlers s = Some (out, s') →
    trace s `prefix_of` trace s'.
Proof.
  intros Hp. induction effects as [|e effects IH]; intros handlers s out s' Hr.
  - by inversion Hr; subst.
  - destruct e as [| | | | | | | | | | |intent cbs|];
      try (by inversion Hr; subst).
    simpl in Hr. unfold mbind at 1, maybeDeferred in Hr.
    destruct (p intent cbs handlers s) as [[o s1]|] eqn:Hp1; [|done].
    unfold mbind in Hr.
    destruct (perform_children p effects handlers s1) as [[[ds|ex] s2]|] eqn:Hc;
      [| |done]; inversion Hr; subst;
      (etrans; [by eapply Hp|by eapply IH]).
Qed.

Lemma chain_loop_prefix
    (p : value → list cbpair → gmap string fid → M World value) cbs handlers :
  (∀ i c h s out s', p i c h s = Some (out, s') →
                     trace s `prefix_of` trace s') →
  ∀ steps idx is_error res s out s',
    chain_loop apply_fn ver p cbs handlers idx steps is_error res s
    = Some (out, s') →
    trace s `prefix_of` trace s'.
Proof.
  intros Hp. induction steps as [|[success error] steps IH];
    intros idx is_error res s out s' Hr.
  - simpl in Hr. destruct is_error; [destruct (slice_from_1 res)|];
      by inversion Hr; subst.
  - simpl in Hr. destruct (if negb is_error then success else error) as [cb|];
      [|by eapply IH].
    unfold mbind at 1, _dispatch_callback, mtry in Hr.
    destruct (call apply_fn p cb [res] s) as [[o s1]|] eqn:Hc; [|done].
    assert (H1 : trace s `prefix_of` trace s1).
    { destruct cb as [f|f bound|f self|effects]; simpl in Hc;
        try (by eapply call_fn_prefix).
      unfold ParallelEffects_perform_effect in Hc.
      destruct res as [| | | | | | | |table| | | |];
        try (by inversion Hc; subst).
      unfold mbind in Hc.
      destruct (perform_children p effects table s) as [[[ds|ex] s2]|] eqn:Hpc;
        [| |done]; inversion Hc; subst;
        by eapply (perform_children_prefix p Hp). }
    assert (H2 : ∀ b v, (mbind (_maybe_chain p v handlers)
                           (λ result, match result with
                              | VDeferred d =>
                                  mret (VDeferred
                                          (_chain_deferred d (drop idx cbs)))
                              | _ => chain_loop apply_fn ver p cbs handlers
                                       (S idx) steps b result
                              end)) s1 = Some (out, s') →
                        trace s1 `prefix_of` trace s').
    { intros b v. unfold mbind.
      destruct (_maybe_chain p v handlers s1) as [[[v'|ex] s2]|] eqn:Hmc;
        [| |done].
      - assert (trace s1 `prefix_of` trace s2).
        { destruct v; simpl in Hmc; try (by inversion Hmc; subst).
          by eapply Hp. }
        intros Hk. etrans; [done|].
        destruct v'; try (by eapply IH). by inversion Hk; subst.
      - intros [= <- <-].
        destruct v; simpl in Hmc; try (by inversion Hmc; subst).
        by eapply Hp. }
    etrans; [exact H1|].
    destruct o as [v|ex]; by eapply H2.
Qed.

Lemma perform_prefix n :
  ∀ intent cbs handlers s out s',
    perform' n intent cbs handlers s = Some (out, s') →
    trace s `prefix_of` trace s'.
Proof.
  induction n as [|n IH]; intros intent cbs handlers s out s' Hr; [done|].
  rewrite perform_unfold in Hr.
  destruct (match handlers !! type_of intent with
            | Some h => Some (CPartial h [intent])
            | None => getattr_perform_effect intent
            end) as [func|]; [|by inversion Hr; subst].
  by eapply (chain_loop_prefix (perform' n) cbs handlers IH).
Qed.

Lemma after_dispatch_prefix n cbs handlers idx rest r s out s' :
  rest_of_step n cbs handlers idx rest r s = Some (out, s') →
  trace s `prefix_of` trace s'.
Proof.
  unfold after_dispatch, mbind. intros Hr.
  destruct (maybe_chain n r.2 handlers s) as [[[v|ex] s1]|] eqn:Hmc; [| |done].
  - assert (trace s `prefix_of` trace s1).
    { destruct r.2; simpl in Hmc; try (by inversion Hmc; subst).
      by eapply perform_prefix. }
    etrans; [done|].
    destruct v;
      try (by eapply (chain_loop_prefix (perform' n) cbs handlers
                        (perform_prefix n))).
    by inversion Hr; subst.
  - inversion Hr; subst.
    destruct r.2; simpl in Hmc; try (by inversion Hmc; subst).
    by eapply perform_prefix.
Qed.

(** C10: when neither a table entry nor a [perform_effect] method exists
    for the intent, [perform] raises [NoEffectHandlerError] carrying the
    intent before the chain walk begins: whatever pairs are attached,
    error sides included, the world and the trace of calls are left as
    they were, so no callback has run and none could recover. *)
Theorem C10_no_handler_runs_no_callback n intent cbs handlers st :
  handlers !! type_of intent = None →
  getattr_perform_effect intent = None →
  ∃ st', perform' (S n) intent cbs handlers st
         = Some (Raise ("NoEffectHandlerError", [intent]), st')
         ∧ trace st' = trace st ∧ world st' = world st.
Proof.
  intros Ht Hm. exists st. rewrite perform_unfold, Ht, Hm. done.
Qed.

(** C7: handler resolution has a fixed precedence. A table entry keyed
    by the type of the intent is used when there is one, even if the
    intent has a [perform_effect] method; otherwise the bound method
    [intent.perform_effect] is used and receives the handler table;
    when there is neither, [perform] ends by raising
    [NoEffectHandlerError] carrying the intent. *)
Theorem C7_handler_resolution_precedence n intent cbs handlers st :
  (∀ h, handlers !! type_of intent = Some h →
     perform' (S n) intent cbs handlers st
     = mbind (mtry (call_fn apply_fn h [intent; VDict handlers])
                   (λ v, (false, v)) (λ e, (true, exc_info e)))
             (rest_of_step n cbs handlers 0 (lift_pair <$> cbs)) st)
  ∧ (∀ m, handlers !! type_of intent = None →
     getattr_perform_effect intent = Some m →
     perform' (S n) intent cbs handlers st
     = mbind (mtry (call' n m [VDict handlers])
                   (λ v, (false, v)) (λ e, (true, exc_info e)))
             (rest_of_step n cbs handlers 0 (lift_pair <$> cbs)) st)
  ∧ (handlers !! type_of intent = None →
     getattr_perform_effect intent = None →
     perform' (S n) intent cbs handlers st
     = Some (Raise ("NoEffectHandlerError", [intent]), st)).
Proof.
  split; [|split].
  - intros h Ht. rewrite perform_unfold, Ht. by rewrite dispatch_chain_unfold.
  - intros m Ht Hm. rewrite perform_unfold, Ht, Hm.
    by rewrite dispatch_chain_unfold.
  - intros Ht Hm. by rewrite perform_unfold, Ht, Hm.
Qed.

(** The first step of every performance: the resolved callable is called
    on the handler table. For a table entry [h] this is the call
    [h(intent, handlers)]. *)
Lemma perform_table_entry n intent cbs handlers h st :
  handlers !! type_of intent = Some h →
  perform' (S n) intent cbs handlers st
  = let '(out, w) := apply_fn h [intent; VDict handlers] (world st) in
    rest_of_step n cbs handlers 0 (lift_pair <$> cbs)
      (match out with Ret v => (false, v) | Raise e => (true, exc_info e) end)
      (State w (trace st ++ [EvCall h [intent; VDict handlers] out])).
Proof.
  intros Ht. rewrite perform_unfold, Ht, dispatch_chain_unfold.
  unfold mbind, _dispatch_callback, mtry, call, call_fn. simpl.
  by destruct (apply_fn h [intent; VDict handlers] (world st)) as [[v|e] w].
Qed.

Lemma perform_bound_method n cls data f cbs handlers st :
  handlers !! cls = None →
  perform' (S n) (VObject cls data (Some f)) cbs handlers st
  = let '(out, w) :=
      apply_fn f [VObject cls data (Some f); VDict handlers] (world st) in
    rest_of_step n cbs handlers 0 (lift_pair <$> cbs)
      (match out with Ret v => (false, v) | Raise e => (true, exc_info e) end)
      (State w (trace st
                ++ [EvCall f [VObject cls data (Some f); VDict handlers] out])).
Proof.
  intros Ht. rewrite perform_unfold. simpl. rewrite Ht, dispatch_chain_unfold.
  unfold mbind, _dispatch_callback, mtry, call, call_fn. simpl.
  by destruct (apply_fn f _ (world st)) as [[v|e] w].
Qed.

(** C6 (as the code has it): for every intent whose type is a key of the
    handler table, [perform] calls that entry with two arguments, the
    intent and the handler table itself, and goes on with the outcome of
    that call; the first call recorded by any performance that ends is this
    one. *)
Theorem C6_table_entry_called_with_intent_and_table
    n intent cbs handlers h st :
  handlers !! type_of intent = Some h →
  perform' (S n) intent cbs handlers st
  = (let '(out, w) := apply_fn h [intent; VDict handlers] (world st) in
     rest_of_step n cbs handlers 0 (lift_pair <$> cbs)
       (match out with Ret v => (false, v) | Raise e => (true, exc_info e) end)
       (State w (trace st ++ [EvCall h [intent; VDict handlers] out])))
  ∧ ∀ out st',
      perform' (S n) intent cbs handlers st = Some (out, st') →
      ∃ o tl,
        trace st' = trace st ++ EvCall h [intent; VDict handlers] o :: tl.
Proof.
  intros Ht. split; [by apply perform_table_entry|].
  intros out st'. rewrite perform_table_entry with (h := h) by done.
  destruct (apply_fn h [intent; VDict handlers] (world st)) as [o w].
  intros Hr. apply after_dispatch_prefix in Hr as [tl Htl]. simpl in Htl.
  exists o, tl. by rewrite Htl, <- app_assoc.
Qed.

(** C1: an Effect built by [Effect(intent)] and repeated [on] calls,
    performed against a table whose resolved handler and success-side
    callbacks return normally (keeping an invariant [P] of plain values),
    returns; the calls made are exactly the handler followed by every
    non-absent success-side callback, once each, in attachment order;
    each receives what the call before it returned, and the result of
    [perform] is what the last one returned. No other call is made, so no
    error side runs. *)
Theorem C1_success_sides_run_once_in_order
    (P : value → Prop) fuel h0 intent pairs handlers hf w :
  (handlers !! type_of intent = Some hf
   ∨ handlers !! type_of intent = None
     ∧ getattr_perform_effect intent = Some (CBoundMethod hf intent)) →
  (∀ v, P v → plain v) →
  (∀ w, ∃ v w', apply_fn hf [intent; VDict handlers] w = (Ret v, w') ∧ P v) →
  (∀ f v w, Some f ∈ pairs.*1 → P v →
            ∃ v' w', apply_fn f [v] w = (Ret v', w') ∧ P v') →
  ∃ e h final w' tr,
    attach (Effect_init h0 intent).2 (Effect_init h0 intent).1 pairs
    = Some (e, h)
    ∧ perform_obj apply_fn ver (S fuel) h e handlers (State w [])
      = Some (Ret final, State w' tr)
    ∧ ev_fn <$> tr = hf :: omap fst pairs
    ∧ chained [intent; VDict handlers] tr final.
Proof.
  intros Hres HP Hh Hcb.
  destruct (Effect_init_spec h0 intent) as (_ & _ & Hs0).
  destruct (attach_spec pairs _ _ _ _ Hs0) as (e & h & Ha & _ & Hs).
  simpl in Hs. exists e, h.
  destruct (Hh w) as (v0 & w0 & Hf & Hv0).
  destruct (success_run fuel pairs handlers P pairs HP Hcb 1 v0
              (State w0 [EvCall hf [intent; VDict handlers] (Ret v0)]) Hv0)
    as (final & w' & tr & Hrun & Hfn & Hch & _).
  exists final, w', (EvCall hf [intent; VDict handlers] (Ret v0) :: tr).
  split; [done|]. unfold perform_obj. rewrite Hs.
  split; [|split; [by rewrite fmap_cons, Hfn|]].
  - destruct Hres as [Ht|[Ht Hm]].
    + rewrite perform_table_entry with (h := hf) by done. simpl.
      rewrite Hf. rewrite after_dispatch_plain by auto. exact Hrun.
    + destruct intent as [| | | | | | | | |cls data [f|]| | |]; try done.
      simpl in Hm, Ht. injection Hm as ->.
      rewrite perform_bound_method by done. simpl. rewrite Hf.
      rewrite after_dispatch_plain by auto. exact Hrun.
  - simpl. split; [done|]. by exists v0.
Qed.

(** While a fault is pending, pairs without an error side are passed
    over: nothing is called and the fault is kept as it is. *)
Lemma fault_passes n cbs handlers mid :
  Forall (λ p : cbpair, p.2 = None) mid →
  ∀ idx rest res st,
    loop n cbs handlers idx ((lift_pair <$> mid) ++ rest) true res st
    = loop n cbs handlers (idx + length mid) rest true res st.
Proof.
  induction 1 as [|[s e] mid He _ IH]; intros idx rest res st.
  - simpl. by rewrite Nat.add_0_r.
  - simpl in He. subst e. rewrite fmap_cons. simpl.
    rewrite IH. f_equal. lia.
Qed.

Lemma dispatch_raise n cb res st e st1 :
  call' n cb [res] st = Some (Raise e, st1) →
  dispatch n cb res st = Some (Ret (true, exc_info e), st1).
Proof. intros Hc. unfold _dispatch_callback, mtry. by rewrite Hc. Qed.

Lemma dispatch_return n cb res st v st1 :
  call' n cb [res] st = Some (Ret v, st1) →
  dispatch n cb res st = Some (Ret (false, v), st1).
Proof. intros Hc. unfold _dispatch_callback, mtry. by rewrite Hc. Qed.

(** A step whose callback raises leaves the walk with the flag set and
    the captured [sys.exc_info()] as the result. *)
Lemma raising_step n cbs handlers idx success error cb rest is_error res
    st e st1 :
  (if negb is_error then success else error) = Some cb →
  call' n cb [res] st = Some (Raise e, st1) →
  loop n cbs handlers idx ((success, error) :: rest) is_error res st
  = loop n cbs handlers (S idx) rest true (exc_info e) st1.
Proof.
  intros Hsel Hc. rewrite (chain_loop_step _ _ _ _ _ _ _ _ _ cb) by done.
  unfold mbind. rewrite (dispatch_raise _ _ _ _ _ _ Hc).
  by rewrite after_dispatch_plain.
Qed.

(** C2: when the callback selected at a step raises, the fault is
    captured; the pairs that follow and have no error side are passed
    over without any call; the first pair with an error side has that
    error side called next, on the captured fault. If it returns a plain
    value, the flag is cleared and the walk goes on from the next pair
    with the success sides selected. *)
Theorem C2_fault_goes_to_nearest_error_side
    n cbs handlers idx success error cb mid s eb post is_error res st e st1 :
  (if negb is_error then success else error) = Some cb →
  call' n cb [res] st = Some (Raise e, st1) →
  Forall (λ p : cbpair, p.2 = None) mid →
  loop n cbs handlers idx
       ((success, error) :: (lift_pair <$> (mid ++ (s, Some eb) :: post)))
       is_error res st
  = mbind (mtry (call_fn apply_fn eb [exc_info e])
                (λ v, (false, v)) (λ e', (true, exc_info e')))
          (rest_of_step n cbs handlers (S idx + length mid) (lift_pair <$> post))
          st1
  ∧ ∀ v w2,
      apply_fn eb [exc_info e] (world st1) = (Ret v, w2) →
      plain v →
      loop n cbs handlers idx
           ((success, error) :: (lift_pair <$> (mid ++ (s, Some eb) :: post)))
           is_error res st
      = loop n cbs handlers (S (S idx + length mid)) (lift_pair <$> post)
             false v
             (State w2 (trace st1 ++ [EvCall eb [exc_info e] (Ret v)])).
Proof.
  intros Hsel Hc Hmid.
  assert (Heq :
    loop n cbs handlers idx
         ((success, error) :: (lift_pair <$> (mid ++ (s, Some eb) :: post)))
         is_error res st
    = mbind (mtry (call_fn apply_fn eb [exc_info e])
                  (λ v, (false, v)) (λ e', (true, exc_info e')))
            (rest_of_step n cbs handlers (S idx + length mid) (lift_pair <$> post))
            st1).
  { rewrite (raising_step _ _ _ _ _ _ _ _ _ _ _ _ _ Hsel Hc).
    rewrite fmap_app, fault_passes by done. rewrite fmap_cons.
    change (lift_pair (s, Some eb)) with (CFunction <$> s, Some (CFunction eb)).
    by rewrite (chain_loop_step _ _ _ _ _ _ _ _ _ (CFunction eb)). }
  split; [done|]. intros v w2 Heb Hv. rewrite Heq.
  unfold mbind, mtry, call_fn. rewrite Heb.
  by rewrite after_dispatch_plain.
Qed.

(** [perform] never returns an Effect: whatever a step leaves as the
    result has been through [_maybe_chain], which performs Effects, and
    so on down the nesting. *)
Lemma loop_not_effect n cbs handlers :
  (∀ intent callbacks st r st',
      perform' n intent callbacks handlers st = Some (Ret r, st') →
      ¬ is_Effect r) →
  ∀ steps idx is_error res st r st',
    ¬ is_Effect res →
    loop n cbs handlers idx steps is_error res st = Some (Ret r, st') →
    ¬ is_Effect r.
Proof.
  intros Hperf. induction steps as [|[success error] steps IH];
    intros idx is_error res st r st' Hres Hrun.
  - simpl in Hrun. destruct is_error.
    + by destruct (slice_from_1 res).
    + by inversion Hrun; subst.
  - destruct (if negb is_error then success else error) as [cb|] eqn:Hsel.
    + rewrite (chain_loop_step _ _ _ _ _ _ _ _ _ cb) in Hrun by done.
      unfold mbind in Hrun.
      destruct (dispatch n cb res st) as [[[[b v]|e] s1]|]; try done.
      unfold after_dispatch, mbind in Hrun. simpl in Hrun.
      destruct (maybe_chain n v handlers s1) as [[[v'|e] s2]|] eqn:Hmc;
        try done.
      assert (Hv' : ¬ is_Effect v').
      { destruct v; simpl in Hmc;
          try (inversion Hmc; subst; simpl; tauto).
        exact (Hperf _ _ _ _ _ Hmc). }
      destruct v'; try (by eapply IH; [|exact Hrun]).
      by inversion Hrun; subst.
    + rewrite chain_loop_skip in Hrun by done. by eapply IH.
Qed.

Lemma perform_not_effect n handlers :
  ∀ intent callbacks st r st',
    perform' n intent callbacks handlers st = Some (Ret r, st') →
    ¬ is_Effect r.
Proof.
  induction n as [|n IH]; intros intent cbs st r st' Hrun; [done|].
  rewrite perform_unfold in Hrun.
  destruct (match handlers !! type_of intent with
            | Some h => Some (CPartial h [intent])
            | None => getattr_perform_effect intent
            end) as [func|]; [|done].
  unfold _dispatch_callback_chain in Hrun.
  eapply (loop_not_effect n cbs handlers IH); [|exact Hrun]. simpl. tauto.
Qed.

(** C4: when the callback selected at a step, on the success or on the
    error path, returns an Effect, that Effect is performed at once
    against the same handler table, and the walk goes on with what the
    inner performance returns in place of the Effect. What it returns is
    never an Effect (nested Effects have been performed in turn), so the
    next step receives a resolved result. *)
Theorem C4_returned_effect_performed_in_place
    n cbs handlers idx success error cb rest is_error res st
    intent' cbs' st1 :
  (if negb is_error then success else error) = Some cb →
  call' n cb [res] st = Some (Ret (VEffect intent' cbs'), st1) →
  loop n cbs handlers idx ((success, error) :: rest) is_error res st
  = mbind (perform' n intent' cbs' handlers)
          (λ r, match r with
                | VDeferred d =>
                    mret (VDeferred (_chain_deferred d (drop idx cbs)))
                | _ => loop n cbs handlers (S idx) rest false r
                end) st1
  ∧ ∀ r st2,
      perform' n intent' cbs' handlers st1 = Some (Ret r, st2) →
      ¬ is_Effect r
      ∧ (¬ is_Deferred r →
         loop n cbs handlers idx ((success, error) :: rest) is_error res st
         = loop n cbs handlers (S idx) rest false r st2).
Proof.
  intros Hsel Hc.
  assert (Heq :
    loop n cbs handlers idx ((success, error) :: rest) is_error res st
    = mbind (perform' n intent' cbs' handlers)
            (λ r, match r with
                  | VDeferred d =>
                      mret (VDeferred (_chain_deferred d (drop idx cbs)))
                  | _ => loop n cbs handlers (S idx) rest false r
                  end) st1).
  { rewrite (chain_loop_step _ _ _ _ _ _ _ _ _ cb) by done.
    unfold mbind at 1. by rewrite (dispatch_return _ _ _ _ _ _ Hc). }
  split; [done|]. intros r st2 Hin.
  split; [by eapply perform_not_effect|].
  intros Hnd. rewrite Heq. unfold mbind. rewrite Hin. by destruct r.
Qed.

(** An inner performance that raises is not a step of the outer chain:
    its exception leaves the outer walk at once. *)
Lemma inner_fault_leaves_walk
    n cbs handlers idx success error cb rest is_error res st
    intent' cbs' st1 e st2 :
  (if negb is_error then success else error) = Some cb →
  call' n cb [res] st = Some (Ret (VEffect intent' cbs'), st1) →
  perform' n intent' cbs' handlers st1 = Some (Raise e, st2) →
  loop n cbs handlers idx ((success, error) :: rest) is_error res st
  = Some (Raise e, st2).
Proof.
  intros Hsel Hc Hin. rewrite (chain_loop_step _ _ _ _ _ _ _ _ _ cb) by done.
  unfold mbind at 1. rewrite (dispatch_return _ _ _ _ _ _ Hc).
  unfold after_dispatch, mbind. simpl. by rewrite Hin.
Qed.

Lemma chain_deferred_attached d pairs :
  attached (_chain_deferred d pairs) = attached d ++ (slot <$> pairs)
  ∧ origin (_chain_deferred d pairs) = origin d.
Proof.
  revert d. induction pairs as [|[cb eb] pairs IH]; intros d; simpl.
  - by rewrite app_nil_r.
  - destruct (IH (addCallbacks d
                    match cb with Some f => DcFn f | None => DcIdentity end
                    (DcFn <$> eb))) as [-> ->].
    simpl. by rewrite <- app_assoc.
Qed.



(** The hand-off at the first step: a handler that returns a Deferred. *)
Lemma handler_deferred_handoff n intent cbs handlers h st d w1 :
  handlers !! type_of intent = Some h →
  apply_fn h [intent; VDict handlers] (world st) = (Ret (VDeferred d), w1) →
  perform' (S n) intent cbs handlers st
  = Some (Ret (VDeferred
                 (_chain_deferred (addCallback d (DcMaybeChain handlers)) cbs)),
          State w1 (trace st
                    ++ [EvCall h [intent; VDict handlers] (Ret (VDeferred d))])).
Proof.
  intros Ht Hh. rewrite perform_table_entry with (h := h) by done.
  simpl. by rewrite Hh.
Qed.

End Properties.

(** ** The end of the walk under Python 2 *)

Section Python2.
Context {World : Type}.
Variable apply_fn : fid → list value → World → outcome value * World.

Local Abbreviation loop2 n :=
  (chain_loop apply_fn Py2 (perform apply_fn Py2 n)).

(** [raise result[1:]] on a captured [sys.exc_info()]: the slice is the
    tuple [(value, traceback)], of which Python 2 raises the first item. *)
Lemma reraise_captured (e : exn) :
  slice_from_1 (exc_info e) = Ret (VTuple [exn_value e; VTraceback])
  ∧ raise_stmt Py2 (VTuple [exn_value e; VTraceback]) = e.
Proof. by destruct e. Qed.

Lemma walk_end_fault n cbs handlers idx e (st : state World) :
  loop2 n cbs handlers idx [] true (exc_info e) st = Some (Raise e, st).
Proof. by destruct e. Qed.

(** Under Python 2 a walk that visits all its steps ends by the flag.
    With the flag set, [perform] raises the captured exception itself
    instead of returning; with the flag clear it returns the result. When
    no pair after a raising step has an error side, nothing more is called
    and the exception that step raised is the one the caller of [perform]
    gets; for a raising handler and a chain without error sides the
    caller sees what a direct call of the handler would have raised. *)
Lemma python2_walk_end_raises_fault_or_returns_result n cbs handlers idx :
  (∀ e st, loop2 n cbs handlers idx [] true (exc_info e) st
           = Some (Raise e, st))
  ∧ (∀ result st, loop2 n cbs handlers idx [] false result st
                  = Some (Ret result, st))
  ∧ (∀ success error cb rest is_error res st e st1,
       (if negb is_error then success else error) = Some cb →
       call apply_fn (perform apply_fn Py2 n) cb [res] st
       = Some (Raise e, st1) →
       Forall (λ p : cbpair, p.2 = None) rest →
       loop2 n cbs handlers idx ((success, error) :: (lift_pair <$> rest))
             is_error res st
       = Some (Raise e, st1))
  ∧ (∀ intent h st e w1,
       handlers !! type_of intent = Some h →
       apply_fn h [intent; VDict handlers] (world st) = (Raise e, w1) →
       Forall (λ p : cbpair, p.2 = None) cbs →
       perform apply_fn Py2 (S n) intent cbs handlers st
       = Some (Raise e,
               State w1 (trace st
                         ++ [EvCall h [intent; VDict handlers] (Raise e)]))).
Proof.
  split; [intros; apply walk_end_fault|]. split; [done|]. split.
  - intros success error cb rest is_error res st e st1 Hsel Hc Hrest.
    rewrite (raising_step _ _ _ _ _ _ _ _ _ _ _ _ _ _ _ Hsel Hc).
    rewrite <- (app_nil_r (lift_pair <$> rest)).
    rewrite fault_passes by done. apply walk_end_fault.
  - intros intent h st e w1 Ht Hh Hcbs.
    rewrite perform_table_entry with (h := h) by done. simpl. rewrite Hh.
    rewrite after_dispatch_plain by done.
    rewrite <- (app_nil_r (lift_pair <$> cbs)).
    rewrite fault_passes by done. apply walk_end_fault.
Qed.

(** Under Python 3 the same statement raises [TypeError] instead: a
    tuple is not an exception. *)
Lemma walk_end_fault_py3 n cbs handlers idx e (st : state World) :
  chain_loop apply_fn Py3 (perform apply_fn Py3 n) cbs handlers idx []
             true (exc_info e) st
  = Some (Raise ("TypeError",
                 [VStr "exceptions must derive from BaseException"]), st).
Proof. by destruct e. Qed.

End Python2.

(** ** [parallel] *)

Lemma lookup_store (g : nat → fired) order :
  ∀ acc j,
    foldl (λ slots (r : nat * fired), <[r.1 := Some r.2]> slots) acc
          ((λ i, (i, g i)) <$> order) !! j
    = if decide (j ∈ order ∧ j < length acc)
      then Some (Some (g j)) else acc !! j.
Proof.
  induction order as [|i order IH]; intros acc j.
  - simpl. destruct (decide (j ∈ [] ∧ j < length acc)) as [[H _]|]; [|done].
    by apply elem_of_nil in H.
  - rewrite fmap_cons. simpl. rewrite IH, length_insert.
    destruct (decide (j < length acc)) as [Hlt|Hge].
    + destruct (decide (j ∈ order)) as [Hin|Hnin].
      * rewrite !decide_True; [done|split; [by right|done]|done].
      * rewrite (decide_False (P := j ∈ order ∧ _)) by tauto.
        destruct (decide (i = j)) as [->|Hne].
        -- rewrite list_lookup_insert_eq by done.
           rewrite decide_True; [done|split; [by left|done]].
        -- rewrite list_lookup_insert_ne by done.
           rewrite decide_False; [done|].
           intros [Hin _]. apply elem_of_cons in Hin as [->|Hin]; done.
    + rewrite !decide_False by tauto.
      rewrite (lookup_ge_None_2 acc) by lia.
      apply lookup_ge_None_2. rewrite length_insert. lia.
Qed.

Lemma first_failure_none (g : nat → value) order :
  first_failure ((λ i, (i, Succeeded (g i))) <$> order) = None.
Proof. induction order as [|i order IH]; [done|]. by rewrite fmap_cons. Qed.

(** With a result for every position, stored whenever it arrives, the
    aggregate succeeds with the results in the order of the positions. *)
Lemma gathered_in_order vs order :
  order ≡ₚ seq 0 (length vs) →
  gathered (length vs)
    ((λ i, (i, Succeeded (default VNone (vs !! i)))) <$> order)
  = Some (Succeeded (VList vs)).
Proof.
  intros Hperm. unfold gathered.
  rewrite (first_failure_none (λ i, default VNone (vs !! i))).
  assert (Hstore :
    store_results (length vs)
      ((λ i, (i, Succeeded (default VNone (vs !! i)))) <$> order)
    = (λ v, Some (Succeeded v)) <$> vs).
  { apply list_eq. intros j. unfold store_results.
    rewrite (lookup_store (λ i, Succeeded (default VNone (vs !! i)))).
    rewrite length_replicate, list_lookup_fmap.
    destruct (decide (j < length vs)) as [Hlt|Hge].
    - rewrite decide_True.
      + destruct (lookup_lt_is_Some_2 vs j Hlt) as [v Hv]. by rewrite Hv.
      + split; [|done]. rewrite Hperm. apply elem_of_seq. lia.
    - rewrite decide_False by tauto.
      rewrite (lookup_ge_None_2 vs) by lia.
      apply lookup_ge_None_2. rewrite length_replicate. lia. }
  rewrite Hstore.
  rewrite (mapM_Some_2 _ _ vs); [done|].
  clear. induction vs; by constructor.
Qed.

Section Parallel.
Context {World : Type}.
Variable apply_fn : fid → list value → World → outcome value * World.
Variable ver : py_version.
Variable completes : nat → fired.
Variable finish_time : nat → nat.

Local Abbreviation resolve' := (resolve apply_fn ver completes finish_time).
Local Abbreviation resolves_to :=
  (resolves_to apply_fn ver completes finish_time).

Lemma perform_children_run n handlers children st outs st' :
  run_children apply_fn ver n handlers children st = Some (outs, st') →
  perform_children (perform apply_fn ver n)
    ((λ c, VEffect c.1 c.2) <$> children) handlers st
  = Some (Ret (to_deferred <$> outs), st').
Proof.
  revert st outs. induction children as [|[intent cbs] children IH];
    intros st outs Hrun; simpl in Hrun.
  - by inversion Hrun.
  - rewrite fmap_cons. simpl. unfold mbind at 1, maybeDeferred.
    destruct (perform apply_fn ver n intent cbs handlers st)
      as [[out st1]|]; [|done].
    destruct (run_children apply_fn ver n handlers children st1)
      as [[outs1 st2]|] eqn:Hrest; [|done].
    inversion Hrun; subst. unfold mbind. by rewrite (IH _ _ Hrest).
Qed.

(** Performing a [ParallelEffects] through its own [perform_effect]: the
    children are performed in turn and the Deferreds made of their outcomes
    are gathered in the order of the list; the pairs of the Effect go onto
    the aggregate. *)
Lemma perform_parallel n handlers children cbs st outs st' :
  handlers !! "ParallelEffects" = None →
  run_children apply_fn ver n handlers children st = Some (outs, st') →
  perform apply_fn ver (S n)
    (VParallelEffects ((λ c, VEffect c.1 c.2) <$> children)) cbs handlers st
  = Some (Ret (VDeferred
                 (_chain_deferred
                    (addCallback (gatherResults (to_deferred <$> outs))
                                 (DcMaybeChain handlers)) cbs)),
          st').
Proof.
  intros Ht Hrun. rewrite perform_unfold.
  change (type_of (VParallelEffects ((λ c, VEffect c.1 c.2) <$> children)))
    with "ParallelEffects".
  rewrite Ht. unfold getattr_perform_effect. cbv iota.
  rewrite dispatch_chain_unfold.
  unfold mbind at 1, _dispatch_callback, mtry, call,
    ParallelEffects_perform_effect.
  unfold mbind at 1. rewrite (perform_children_run _ _ _ _ _ _ Hrun).
  reflexivity.
Qed.

Lemma resolve_in_order_all m ds vs order :
  Forall2 (resolves_to m) ds vs →
  Forall (λ i, i < length ds) order →
  ∀ s, ∃ s',
    resolve_in_order (resolve' m) ds order s
    = Some (Ret ((λ i, (i, Succeeded (default VNone (vs !! i)))) <$> order),
            s').
Proof.
  intros Hall. induction 1 as [|i order Hi _ IH]; intros s.
  - by exists s.
  - destruct (lookup_lt_is_Some_2 ds i Hi) as [d Hd].
    destruct (Forall2_lookup_l _ _ _ _ _ Hall Hd) as (v & Hv & Hres).
    destruct (Hres s) as [s1 Hs1]. destruct (IH s1) as [s2 Hs2].
    exists s2. simpl. rewrite Hd. unfold mbind at 1. rewrite Hs1.
    unfold mbind. rewrite Hs2. by rewrite Hv.
Qed.

Lemma completion_order_perm ds :
  completion_order finish_time ds ≡ₚ seq 0 (length ds).
Proof. apply merge_sort_Permutation. Qed.

Lemma resolve_gather m ds vs :
  Forall2 (resolves_to m) ds vs →
  resolves_to (S m) (gatherResults ds) (VList vs).
Proof.
  intros Hall s.
  assert (Hin : Forall (λ i, i < length ds) (completion_order finish_time ds)).
  { apply Forall_forall. intros i Hi.
    rewrite completion_order_perm in Hi. apply elem_of_seq in Hi. lia. }
  destruct (resolve_in_order_all m ds vs _ Hall Hin s) as [s' Hs'].
  exists s'. simpl. unfold mbind. rewrite Hs'.
  rewrite (Forall2_length _ _ _ Hall).
  rewrite gathered_in_order; [done|].
  rewrite <- (Forall2_length _ _ _ Hall). apply completion_order_perm.
Qed.

(** C9: [parallel(effects)] is a new Effect whose intent is
    [ParallelEffects(effects)] and whose list of pairs is empty. Performed
    against a table without an entry for [ParallelEffects], it performs
    every child, in the order of the sequence and against that same table,
    and returns the aggregate of the Deferreds made of their outcomes. If the
    Deferred of each child fires with a result, the aggregate fires with
    the list of these results in the order of the input sequence, whatever
    the completion times of the children. *)
Theorem C9_parallel_results_in_input_order
    n h0 children handlers st outs st' vs :
  handlers !! "ParallelEffects" = None →
  run_children apply_fn ver n handlers children st = Some (outs, st') →
  Forall2 (λ out v, resolves_to n (to_deferred out) v) outs vs →
  let effects := (λ c, VEffect c.1 c.2) <$> children in
  let aggregate :=
    addCallback (gatherResults (to_deferred <$> outs)) (DcMaybeChain handlers) in
  snapshot (parallel h0 effects).2 (parallel h0 effects).1
  = Some (VEffect (VParallelEffects effects) [])
  ∧ perform_obj apply_fn ver (S n) (parallel h0 effects).2
      (parallel h0 effects).1 handlers st
    = Some (Ret (VDeferred aggregate), st')
  ∧ resolves_to (S (S n)) aggregate (VList vs).
Proof.
  intros Ht Hrun Hall effects aggregate.
  destruct (Effect_init_spec h0 (VParallelEffects effects)) as (_ & _ & Hs).
  split; [exact Hs|]. split.
  - unfold perform_obj, parallel. rewrite Hs.
    by rewrite (perform_parallel _ _ _ _ _ _ _ Ht Hrun).
  - intros s.
    assert (Hds : Forall2 (resolves_to n) (to_deferred <$> outs) vs).
    { by apply Forall2_fmap_l. }
    destruct (resolve_gather n _ _ Hds s) as [s' Hs'].
    exists s'. unfold aggregate, addCallback, addCallbacks.
    change (resolve' (S (S n)) (DAddCallbacks (gatherResults (to_deferred <$> outs))
                                  (DcMaybeChain handlers) None) s)
      with (mbind (resolve' (S n) (gatherResults (to_deferred <$> outs)))
              (λ r, match r with
                    | Succeeded v =>
                        λ s, match call_dcallback apply_fn
                                     (perform apply_fn ver (S n))
                                     (DcMaybeChain handlers) v s with
                             | None => None
                             | Some (Raise e, s') =>
                                 Some (Ret (Failed (exn_value e)), s')
                             | Some (Ret (VDeferred d'), s') =>
                                 resolve' (S n) d' s'
                             | Some (Ret v, s') => Some (Ret (Succeeded v), s')
                             end
                    | Failed failure => mret (Failed failure)
                    end) s).
    unfold mbind. by rewrite Hs'.
Qed.

End Parallel.

(** ** Further properties of the chain walk *)

Section Walking.
Context {World : Type}.
Variable apply_fn : fid → list value → World → outcome value * World.
Variable ver : py_version.

Local Abbreviation perform' := (perform apply_fn ver).
Local Abbreviation loop n := (chain_loop apply_fn ver (perform apply_fn ver n)).
Local Abbreviation call' n := (call apply_fn (perform apply_fn ver n)).

(** A walk that has visited all its steps with the flag set raises. *)
Lemma walk_end_flag_raises n cbs handlers idx res (st : state World) :
  ∃ e', loop n cbs handlers idx [] true res st = Some (Raise e', st).
Proof. simpl. destruct (slice_from_1 res); by eexists. Qed.

(** X1: when the callback selected at a step returns an Effect and the
    performance of that Effect raises, the outer walk ends there: the
    exception is the outcome of the outer walk, in the state the inner
    performance left, whatever the later pairs are, error sides
    included. *)
Theorem X1_inner_fault_leaves_outer_walk
    n cbs handlers idx success error cb rest is_error res st
    intent' cbs' st1 e st2 :
  (if negb is_error then success else error) = Some cb →
  call' n cb [res] st = Some (Ret (VEffect intent' cbs'), st1) →
  perform apply_fn ver n intent' cbs' handlers st1 = Some (Raise e, st2) →
  chain_loop apply_fn ver (perform apply_fn ver n) cbs handlers idx
    ((success, error) :: rest) is_error res st
  = Some (Raise e, st2).
Proof.
  intros Hsel Hc Hin. rewrite (chain_loop_step _ _ _ _ _ _ _ _ _ _ _ cb) by done.
  unfold mbind at 1. rewrite (dispatch_return _ _ _ _ _ _ _ _ Hc).
  unfold after_dispatch, mbind. simpl. by rewrite Hin.
Qed.

(** X2: an Effect returned by a callback whose intent has neither a table
    entry nor a [perform_effect] method makes the outer [perform] raise
    [NoEffectHandlerError] carrying that intent, right after the callback;
    no later pair of the outer Effect is called. *)
Theorem X2_nested_missing_handler_surfaces
    n cbs handlers idx success error cb rest is_error res st
    intent' cbs' st1 :
  (if negb is_error then success else error) = Some cb →
  call' (S n) cb [res] st = Some (Ret (VEffect intent' cbs'), st1) →
  handlers !! type_of intent' = None →
  getattr_perform_effect intent' = None →
  loop (S n) cbs handlers idx ((success, error) :: rest) is_error res st
  = Some (Raise ("NoEffectHandlerError", [intent']), st1).
Proof.
  intros Hsel Hc Ht Hm.
  apply (inner_fault_leaves_walk _ _ _ _ _ _ _ _ cb _ _ _ _ intent' cbs' st1);
    [done|done|].
  by rewrite perform_unfold, Ht, Hm.
Qed.

(** X3: with [on(f, g)] the error side [g] does not guard the success
    side [f] of the same pair. When the handler returns and [f] raises, [g]
    is not called; with no error side further on, [perform] raises with
    only the handler and [f] called, and under Python 2 what it raises is
    the fault of [f]. *)
Theorem X3_error_side_does_not_guard_its_own_pair
    n intent h f g rest handlers st v0 w1 e w2 :
  handlers !! type_of intent = Some h →
  apply_fn h [intent; VDict handlers] (world st) = (Ret v0, w1) →
  plain v0 →
  apply_fn f [v0] w1 = (Raise e, w2) →
  Forall (λ p : cbpair, p.2 = None) rest →
  ∃ e',
    perform' (S n) intent ((Some f, Some g) :: rest) handlers st
    = Some (Raise e',
            State w2 (trace st ++ [EvCall h [intent; VDict handlers] (Ret v0);
                                   EvCall f [v0] (Raise e)]))
    ∧ (ver = Py2 → e' = e).
Proof.
  intros Ht Hh Hv0 Hf Hrest.
  rewrite perform_table_entry with (h := h) by done. rewrite Hh.
  rewrite after_dispatch_plain by done. rewrite fmap_cons.
  change (lift_pair (Some f, Some g))
    with (Some (CFunction f), Some (CFunction g)).
  rewrite (raising_step _ _ n _ _ _ _ _ (CFunction f) _ _ _ _ e
             (State w2 ((trace st ++ [EvCall h [intent; VDict handlers] (Ret v0)])
                        ++ [EvCall f [v0] (Raise e)])));
    [|done|by unfold call, call_fn; simpl; rewrite Hf].
  rewrite <- (app_nil_r (lift_pair <$> rest)).
  rewrite fault_passes by done. rewrite <- app_assoc. simpl.
  destruct e as [cls args]. destruct ver; eexists; (split; [reflexivity|]);
    [done|by intros].
Qed.

(** X4: [on_success(f)] followed by [on_error(g)] guards both the handler
    and [f], for a handler found in the table and a [g] that returns a
    plain value (neither an Effect nor a Deferred): if the handler returns
    a plain value and [f] raises, [g] is called on the [sys.exc_info()] of
    [f]; if the handler raises, [f] is passed over and [g] is called on the
    [sys.exc_info()] of the handler. In both cases [perform] returns what
    [g] returned, and nothing else has been called. *)
Theorem X4_on_error_after_on_success_guards_both
    n intent h f g handlers st r :
  handlers !! type_of intent = Some h →
  plain r →
  (∀ v0 w1 e w2 w3,
     apply_fn h [intent; VDict handlers] (world st) = (Ret v0, w1) →
     plain v0 →
     apply_fn f [v0] w1 = (Raise e, w2) →
     apply_fn g [exc_info e] w2 = (Ret r, w3) →
     perform' (S n) intent [(Some f, None); (None, Some g)] handlers st
     = Some (Ret r,
             State w3 (trace st
                       ++ [EvCall h [intent; VDict handlers] (Ret v0);
                           EvCall f [v0] (Raise e);
                           EvCall g [exc_info e] (Ret r)])))
  ∧ (∀ e0 w1 w2,
       apply_fn h [intent; VDict handlers] (world st) = (Raise e0, w1) →
       apply_fn g [exc_info e0] w1 = (Ret r, w2) →
       perform' (S n) intent [(Some f, None); (None, Some g)] handlers st
       = Some (Ret r,
               State w2 (trace st
                         ++ [EvCall h [intent; VDict handlers] (Raise e0);
                             EvCall g [exc_info e0] (Ret r)]))).
Proof.
  intros Ht Hr. split.
  - intros v0 w1 e w2 w3 Hh Hv0 Hf Hg.
    rewrite perform_table_entry with (h := h) by done. rewrite Hh.
    rewrite after_dispatch_plain by done. simpl.
    unfold mbind at 1, _dispatch_callback, mtry, call, call_fn. simpl.
    rewrite Hf. unfold mbind at 1. simpl.
    unfold mbind at 1, _dispatch_callback, mtry, call, call_fn. simpl.
    rewrite Hg. unfold mbind. rewrite maybe_chain_plain by done.
    destruct r; try done; by rewrite <- !app_assoc.
  - intros e0 w1 w2 Hh Hg.
    rewrite perform_table_entry with (h := h) by done. rewrite Hh.
    rewrite after_dispatch_plain by done. simpl.
    unfold mbind at 1, _dispatch_callback, mtry, call, call_fn. simpl.
    rewrite Hg. unfold mbind. rewrite maybe_chain_plain by done.
    destruct r; try done; by rewrite <- !app_assoc.
Qed.

(** X5: a callback [f] attached with [after] to an Effect without pairs
    whose handler is found in the table: when the handler returns a plain
    value (neither an Effect nor a Deferred) or raises, and [f] returns a
    plain value, [f] is called exactly once, on the returned value in the
    first case and on the captured [sys.exc_info()] in the second, and
    [perform] returns what [f] returned; only the handler and [f] have been
    called. *)
Theorem X5_after_runs_on_both_paths
    n h self intent hf f handlers st out0 w1 r w2 :
  let arg := match out0 with Ret v => v | Raise e => exc_info e end in
  snapshot h self = Some (VEffect intent []) →
  handlers !! type_of intent = Some hf →
  apply_fn hf [intent; VDict handlers] (world st) = (out0, w1) →
  plain arg →
  apply_fn f [arg] w1 = (Ret r, w2) →
  plain r →
  ∃ e' h',
    after h self f = Some (e', h')
    ∧ perform_obj apply_fn ver (S n) h' e' handlers st
      = Some (Ret r,
              State w2 (trace st
                        ++ [EvCall hf [intent; VDict handlers] out0;
                            EvCall f [arg] (Ret r)])).
Proof.
  intros arg Hs Ht Hh Harg Hf Hr.
  destruct (on_spec h self (Some f) (Some f) _ _ Hs)
    as (e' & h' & Hon & _ & _ & Hs').
  exists e', h'. split; [done|]. unfold perform_obj. rewrite Hs'.
  change ([] ++ [(Some f, Some f)]) with [(Some f, Some f)].
  rewrite perform_table_entry with (h := hf) by done. rewrite Hh.
  replace (match out0 with
           | Ret v => (false, v)
           | Raise e => (true, exc_info e)
           end)
    with (match out0 with Ret _ => false | Raise _ => true end, arg)
    by (by destruct out0).
  rewrite after_dispatch_plain by done. simpl.
  assert (Hsel : (if negb match out0 with Ret _ => false | Raise _ => true end
                  then Some (CFunction f) else Some (CFunction f))
                 = Some (CFunction f)) by (by destruct out0).
  rewrite Hsel.
  unfold mbind at 1, _dispatch_callback, mtry, call, call_fn. simpl.
  rewrite Hf. unfold mbind. rewrite maybe_chain_plain by done.
  destruct r; try done; by rewrite <- !app_assoc.
Qed.

(** X6: when the Effect returned by a callback is performed into a
    Deferred (its own walk has handed off), the outer walk hands off to
    that same Deferred: the pairs of the outer Effect not yet visited are
    attached after everything the inner performance attached, and nothing
    else is. *)
Theorem X6_nested_handoff_appends_outer_pairs
    n cbs handlers idx success error cb rest is_error res st
    intent' cbs' st1 d st2 :
  (if negb is_error then success else error) = Some cb →
  call' n cb [res] st = Some (Ret (VEffect intent' cbs'), st1) →
  perform' n intent' cbs' handlers st1 = Some (Ret (VDeferred d), st2) →
  ∃ d',
    loop n cbs handlers idx ((success, error) :: rest) is_error res st
    = Some (Ret (VDeferred d'), st2)
    ∧ origin d' = origin d
    ∧ attached d' = attached d ++ (slot <$> drop idx cbs).
Proof.
  intros Hsel Hc Hin. exists (_chain_deferred d (drop idx cbs)).
  destruct (chain_deferred_attached d (drop idx cbs)) as [Ha Ho].
  split; [|done].
  rewrite (chain_loop_step _ _ _ _ _ _ _ _ _ _ _ cb) by done.
  unfold mbind at 1. rewrite (dispatch_return _ _ _ _ _ _ _ _ Hc).
  unfold after_dispatch, mbind. simpl. by rewrite Hin.
Qed.

End Walking.

(** ** Further properties of the combinators *)

Section Sharing.
Implicit Types (h : gmap loc cell) (l e : loc) (c : cell).

Lemma Effect_init_cell h intent :
  ∃ empty,
    (Effect_init h intent).2 !! (Effect_init h intent).1
    = Some (CEffect intent empty).
Proof.
  unfold Effect_init. destruct (alloc h (CList [])) as [empty h1].
  exists empty. apply alloc_lookup.
Qed.

Lemma with_callbacks_cell h intent cl :
  (with_callbacks h intent cl).2 !! (with_callbacks h intent cl).1
  = Some (CEffect intent cl).
Proof.
  unfold with_callbacks. destruct (Effect_init_cell h intent) as [empty He].
  destruct (Effect_init h intent) as [eff h1]. simpl in *.
  unfold set_callbacks. by rewrite lookup_alter_eq, He.
Qed.

(** X7: the Effect returned by [on] has a list object of its own: neither
    the new Effect nor the list its [callbacks] attribute refers to existed
    before the call, so the new Effect shares no list with the original or
    with any other Effect. *)
Theorem X7_on_gives_the_new_effect_a_list_of_its_own
    h self success error intent items e' h' :
  snapshot h self = Some (VEffect intent items) →
  on h self success error = Some (e', h') →
  ∃ cl',
    h' !! e' = Some (CEffect intent cl')
    ∧ h' !! cl' = Some (CList (items ++ [(success, error)]))
    ∧ h !! e' = None
    ∧ h !! cl' = None
    ∧ cl' ≠ e'.
Proof.
  unfold snapshot, on. intros Hs Hon.
  destruct (h !! self) as [[i cl|]|] eqn:He; try done.
  destruct (h !! cl) as [[|its]|] eqn:Hcl; try done.
  inversion Hs; subst i its; clear Hs.
  pose proof (alloc_subseteq h (CList [(success, error)])) as Hsub1.
  destruct (alloc h (CList [(success, error)])) as [tmp h1]. simpl in Hsub1.
  pose proof (alloc_subseteq h1 (CList (items ++ [(success, error)]))) as Hsub2.
  pose proof (alloc_lookup h1 (CList (items ++ [(success, error)]))) as Hl2.
  pose proof (alloc_fresh_mono h h1 (CList (items ++ [(success, error)])) Hsub1)
    as Hf2.
  destruct (alloc h1 (CList (items ++ [(success, error)]))) as [app h2].
  simpl in Hsub2, Hl2, Hf2.
  destruct (with_callbacks_spec h2 intent app _ Hl2) as (Hfresh & Hsub3 & _).
  pose proof (with_callbacks_cell h2 intent app) as Hcell.
  destruct (with_callbacks h2 intent app) as [e0 h0]. simpl in *.
  inversion Hon; subst e0 h0; clear Hon.
  exists app. split; [done|].
  split; [by eapply lookup_weaken|].
  split.
  { destruct (h !! e') as [c0|] eqn:Hl; [|done].
    assert (h2 !! e' = Some c0) by (eapply lookup_weaken; [done|by etrans]).
    congruence. }
  split; [done|]. intros ->. congruence.
Qed.

(** X8: two Effects derived from the same Effect by two [on] calls are
    independent: each has the pairs of the original followed by its own
    pair, the second call changes neither the first result nor the
    original, and the two results are different objects. *)
Theorem X8_branches_from_one_effect_are_independent
    h e intent items s1 x1 s2 x2 e1 h1 e2 h2 :
  snapshot h e = Some (VEffect intent items) →
  on h e s1 x1 = Some (e1, h1) →
  on h1 e s2 x2 = Some (e2, h2) →
  snapshot h2 e = Some (VEffect intent items)
  ∧ snapshot h2 e1 = Some (VEffect intent (items ++ [(s1, x1)]))
  ∧ snapshot h2 e2 = Some (VEffect intent (items ++ [(s2, x2)]))
  ∧ e1 ≠ e2 ∧ e1 ≠ e ∧ e2 ≠ e.
Proof.
  intros Hs Hon1 Hon2.
  destruct (on_spec h e s1 x1 _ _ Hs) as (e1' & h1' & Hon1' & Hf1 & Hsub1 & Hs1).
  rewrite Hon1 in Hon1'. inversion Hon1'; subst e1' h1'; clear Hon1'.
  pose proof (snapshot_weaken _ _ _ _ Hsub1 Hs) as Hs_1.
  destruct (on_spec h1 e s2 x2 _ _ Hs_1)
    as (e2' & h2' & Hon2' & Hf2 & Hsub2 & Hs2).
  rewrite Hon2 in Hon2'. inversion Hon2'; subst e2' h2'; clear Hon2'.
  split; [by eapply snapshot_weaken|].
  split; [by eapply snapshot_weaken|].
  split; [done|].
  assert (He1 : is_Some (h1 !! e1)).
  { unfold snapshot in Hs1. destruct (h1 !! e1); [by eexists|done]. }
  assert (He : is_Some (h !! e)).
  { unfold snapshot in Hs. destruct (h !! e); [by eexists|done]. }
  assert (He' : is_Some (h1 !! e)).
  { unfold snapshot in Hs_1. destruct (h1 !! e); [by eexists|done]. }
  split; [|split]; intros ->.
  - rewrite Hf2 in He1. by destruct He1.
  - rewrite Hf1 in He. by destruct He.
  - rewrite Hf2 in He'. by destruct He'.
Qed.

(** X9: [with_callbacks] does not copy the list it is given: the
    [callbacks] attribute of the Effect it builds refers to that very list
    object (the empty list made by [__init__] is dropped), so a later
    change of the list is seen through the Effect. *)
Theorem X9_with_callbacks_shares_the_given_list
    h intent cl items items' :
  h !! cl = Some (CList items) →
  (with_callbacks h intent cl).2 !! (with_callbacks h intent cl).1
  = Some (CEffect intent cl)
  ∧ snapshot (<[cl := CList items']> (with_callbacks h intent cl).2)
             (with_callbacks h intent cl).1
    = Some (VEffect intent items').
Proof.
  intros Hcl. pose proof (with_callbacks_cell h intent cl) as Hcell.
  destruct (with_callbacks_spec h intent cl _ Hcl) as (Hfresh & _ & _).
  split; [done|].
  assert (Hne : cl ≠ (with_callbacks h intent cl).1).
  { intros Heq. rewrite <- Heq in Hfresh. congruence. }
  unfold snapshot. rewrite lookup_insert_ne by done. rewrite Hcell.
  by rewrite lookup_insert_eq.
Qed.

End Sharing.

(** ** Further properties of [ParallelEffects] and of the hand-off *)

Section Gathering.
Context {World : Type}.
Variable apply_fn : fid → list value → World → outcome value * World.
Variable ver : py_version.
Variable completes : nat → fired.
Variable finish_time : nat → nat.

Local Abbreviation perform' := (perform apply_fn ver).
Local Abbreviation loop n := (chain_loop apply_fn ver (perform apply_fn ver n)).
Local Abbreviation resolve' := (resolve apply_fn ver completes finish_time).

Lemma run_children_length n handlers children st outs st' :
  run_children apply_fn ver n handlers children st = Some (outs, st') →
  length outs = length children.
Proof.
  revert st outs. induction children as [|[intent cbs] children IH];
    intros st outs Hrun; simpl in Hrun.
  - by inversion Hrun.
  - destruct (perform' n intent cbs handlers st) as [[out st1]|]; [|done].
    destruct (run_children apply_fn ver n handlers children st1)
      as [[outs1 st2]|] eqn:Hrest; [|done].
    inversion Hrun; subst. simpl. by rewrite (IH _ _ Hrest).
Qed.

(** X10: performing a [ParallelEffects] through its own [perform_effect]
    does not raise when a child does: every child is performed, in order,
    and [perform] returns the aggregate Deferred; a child that raised
    stands at its position as a failed Deferred. The pairs of the parallel
    Effect are not called: they go onto the aggregate, after
    [_maybe_chain]. *)
Theorem X10_parallel_child_fault_does_not_stop_the_others
    n handlers children cbs st outs st' :
  handlers !! "ParallelEffects" = None →
  run_children apply_fn ver n handlers children st = Some (outs, st') →
  ∃ d,
    perform' (S n) (VParallelEffects ((λ c, VEffect c.1 c.2) <$> children))
             cbs handlers st
    = Some (Ret (VDeferred d), st')
    ∧ origin d = gatherResults (to_deferred <$> outs)
    ∧ attached d = (DcMaybeChain handlers, None) :: (slot <$> cbs)
    ∧ length outs = length children
    ∧ ∀ i e, outs !! i = Some (Raise e) →
             (to_deferred <$> outs) !! i = Some (DFail (exn_value e)).
Proof.
  intros Ht Hrun.
  exists (_chain_deferred
            (addCallback (gatherResults (to_deferred <$> outs))
                         (DcMaybeChain handlers)) cbs).
  split; [by apply perform_parallel|].
  destruct (chain_deferred_attached
              (addCallback (gatherResults (to_deferred <$> outs))
                           (DcMaybeChain handlers)) cbs) as [Ha Ho].
  split; [done|]. split; [done|].
  split; [by eapply run_children_length|].
  intros i e Hi. by rewrite list_lookup_fmap, Hi.
Qed.



(** X12: when the Deferred a step has left fires with an Effect, the
    [_maybe_chain] attached to it performs that Effect against the handler
    table of the walk, and the Deferred goes on with what the performance
    returns; if the performance raises, with the failure. *)
Theorem X12_effect_fired_by_the_deferred_is_performed
    k id handlers intent cbs s :
  completes id = Succeeded (VEffect intent cbs) →
  (∀ r s', perform' (S k) intent cbs handlers s = Some (Ret r, s') →
           ¬ is_Deferred r →
           resolve' (S (S k))
             (addCallback (DPending id) (DcMaybeChain handlers)) s
           = Some (Ret (Succeeded r), s'))
  ∧ (∀ e s', perform' (S k) intent cbs handlers s = Some (Raise e, s') →
             resolve' (S (S k))
               (addCallback (DPending id) (DcMaybeChain handlers)) s
             = Some (Ret (Failed (exn_value e)), s')).
Proof.
  intros Hc.
  assert (Heq : resolve' (S (S k))
                  (addCallback (DPending id) (DcMaybeChain handlers)) s
                = match perform' (S k) intent cbs handlers s with
                  | None => None
                  | Some (Raise e, s') => Some (Ret (Failed (exn_value e)), s')
                  | Some (Ret (VDeferred d'), s') => resolve' (S k) d' s'
                  | Some (Ret v, s') => Some (Ret (Succeeded v), s')
                  end).
  { unfold addCallback, addCallbacks.
    change (resolve' (S (S k))
              (DAddCallbacks (DPending id) (DcMaybeChain handlers) None) s)
      with (mbind (resolve' (S k) (DPending id))
              (λ r, match r with
                    | Succeeded v =>
                        λ s, match call_dcallback apply_fn (perform' (S k))
                                     (DcMaybeChain handlers) v s with
                             | None => None
                             | Some (Raise e, s') =>
                                 Some (Ret (Failed (exn_value e)), s')
                             | Some (Ret (VDeferred d'), s') =>
                                 resolve' (S k) d' s'
                             | Some (Ret v, s') => Some (Ret (Succeeded v), s')
                             end
                    | Failed failure => mret (Failed failure)
                    end) s).
    unfold mbind. simpl resolve. unfold mret. by rewrite Hc. }
  split.
  - intros r s' Hp Hr. rewrite Heq, Hp. by destruct r.
  - intros e s' Hp. by rewrite Heq, Hp.
Qed.

(** X13: a pair attached to the Deferred by the hand-off is attached as it
    is, without [_maybe_chain]: when its callback returns an Effect, the
    Deferred goes on with the Effect itself, which is not performed (the
    only call made is the callback). *)
Theorem X13_effect_returned_after_handoff_is_not_performed
    k d0 f err s v s1 intent cbs w2 :
  resolve' (S k) d0 s = Some (Ret (Succeeded v), s1) →
  apply_fn f [v] (world s1) = (Ret (VEffect intent cbs), w2) →
  resolve' (S (S k)) (_chain_deferred d0 [(Some f, err)]) s
  = Some (Ret (Succeeded (VEffect intent cbs)),
          State w2 (trace s1 ++ [EvCall f [v] (Ret (VEffect intent cbs))])).
Proof.
  intros Hd Hf. simpl _chain_deferred. unfold addCallbacks.
  change (resolve' (S (S k)) (DAddCallbacks d0 (DcFn f) (DcFn <$> err)) s)
    with (mbind (resolve' (S k) d0)
            (λ r, match r with
                  | Succeeded v =>
                      λ s, match call_dcallback apply_fn (perform' (S k))
                                   (DcFn f) v s with
                           | None => None
                           | Some (Raise e, s') =>
                               Some (Ret (Failed (exn_value e)), s')
                           | Some (Ret (VDeferred d'), s') =>
                               resolve' (S k) d' s'
                           | Some (Ret v, s') => Some (Ret (Succeeded v), s')
                           end
                  | Failed failure =>
                      match DcFn <$> err with
                      | None => mret (Failed failure)
                      | Some errback =>
                          λ s, match call_dcallback apply_fn (perform' (S k))
                                       errback failure s with
                               | None => None
                               | Some (Raise e, s') =>
                                   Some (Ret (Failed (exn_value e)), s')
                               | Some (Ret (VDeferred d'), s') =>
                                   resolve' (S k) d' s'
                               | Some (Ret v, s') =>
                                   Some (Ret (Succeeded v), s')
                               end
                      end
                  end) s).
  unfold mbind. rewrite Hd. unfold call_dcallback, call_fn. by rewrite Hf.
Qed.

(** One more pair on a Deferred that fires with a result: the callback is
    called on it, and what it returns is the new result. *)
Lemma resolve_callback fuel d cb eb s v s1 v' s2 :
  resolve' fuel d s = Some (Ret (Succeeded v), s1) →
  call_dcallback apply_fn (perform' fuel) cb v s1 = Some (Ret v', s2) →
  plain v' →
  resolve' (S fuel) (addCallbacks d cb eb) s = Some (Ret (Succeeded v'), s2).
Proof.
  intros Hd Hc Hv'. simpl. unfold mbind. rewrite Hd, Hc. by destruct v'.
Qed.

(** X17: the hand-off does not change the success path. When the Deferred
    fires with a result and the success sides return plain values, the
    pairs attached by [_chain_deferred] give the result and make the
    calls that the walk itself would have given and made from that
    result. *)
Theorem X17_handoff_keeps_the_success_path
    (P : value → Prop) n cbs handlers pairs :
  (∀ v, P v → plain v) →
  (∀ f v w, Some f ∈ pairs.*1 → P v →
            ∃ v' w', apply_fn f [v] w = (Ret v', w') ∧ P v') →
  ∀ k idx d0 s v s1,
    resolve' (S k) d0 s = Some (Ret (Succeeded v), s1) →
    P v →
    ∃ final s2,
      resolve' (length pairs + S k) (_chain_deferred d0 pairs) s
      = Some (Ret (Succeeded final), s2)
      ∧ loop n cbs handlers idx (lift_pair <$> pairs) false v s1
        = Some (Ret final, s2).
Proof.
  intros HP. induction pairs as [|[success error] pairs IH];
    intros Hcb k idx d0 s v s1 Hd Hv.
  - by exists v, s1.
  - assert (Hcb' : ∀ f v w, Some f ∈ pairs.*1 → P v →
              ∃ v' w', apply_fn f [v] w = (Ret v', w') ∧ P v').
    { intros f v0 w Hin. apply Hcb. simpl. by right. }
    replace (length ((success, error) :: pairs) + S k)
      with (length pairs + S (S k)) by (simpl; lia).
    rewrite fmap_cons. destruct success as [f|].
    + destruct (Hcb f v (world s1)) as (v' & w' & Hf & Hv'); [by left|done|].
      destruct (IH Hcb' (S k) (S idx)
                  (addCallbacks d0 (DcFn f) (DcFn <$> error)) s v'
                  (State w' (trace s1 ++ [EvCall f [v] (Ret v')])))
        as (final & s2 & Hres & Hloop); [|done|].
      { apply resolve_callback with (v := v) (s1 := s1); [done| |by apply HP].
        unfold call_dcallback, call_fn. by rewrite Hf. }
      exists final, s2. split; [done|].
      change (lift_pair (Some f, error))
        with (Some (CFunction f), CFunction <$> error).
      rewrite (chain_loop_step _ _ _ _ _ _ _ _ _ _ _ (CFunction f)) by done.
      unfold mbind, _dispatch_callback, mtry, call, call_fn.
      rewrite Hf. rewrite after_dispatch_plain by auto. exact Hloop.
    + destruct (IH Hcb' (S k) (S idx)
                  (addCallbacks d0 DcIdentity (DcFn <$> error)) s v s1)
        as (final & s2 & Hres & Hloop); [|done|].
      { apply resolve_callback with (v := v) (s1 := s1); [done|done|by apply HP]. }
      exists final, s2. split; [done|].
      change (lift_pair (None, error))
        with (@None callable, CFunction <$> error).
      by rewrite chain_loop_skip.
Qed.

End Gathering.

(** ** The end of the walk under Python 3 *)

(** X14: under Python 3, where [raise] refuses a tuple, a performance
    whose handler raises and whose pairs have no error side does not raise
    the fault of the handler: [raise result[1:]] raises [TypeError]. *)
Theorem X14_python3_final_raise_is_a_type_error
    {World : Type}
    (apply_fn : fid → list value → World → outcome value * World)
    n intent h cbs handlers st e w1 :
  handlers !! type_of intent = Some h →
  apply_fn h [intent; VDict handlers] (world st) = (Raise e, w1) →
  Forall (λ p : cbpair, p.2 = None) cbs →
  perform apply_fn Py3 (S n) intent cbs handlers st
  = Some (Raise ("TypeError",
                 [VStr "exceptions must derive from BaseException"]),
          State w1 (trace st ++ [EvCall h [intent; VDict handlers] (Raise e)])).
Proof.
  intros Ht Hh Hcbs.
  rewrite perform_table_entry with (h := h) by done. rewrite Hh.
  rewrite after_dispatch_plain by done.
  rewrite <- (app_nil_r (lift_pair <$> cbs)).
  rewrite fault_passes by done. apply walk_end_fault_py3.
Qed.

(** ** [serialize] *)

(** Induction on a value along the intent of an Effect and the members of
    a [ParallelEffects]. *)
Lemma value_tree_ind (P : value → Prop) :
  (∀ intent callbacks, P intent → P (VEffect intent callbacks)) →
  (∀ effects, Forall P effects → P (VParallelEffects effects)) →
  (∀ v, ¬ is_Effect v → (∀ effects, v ≠ VParallelEffects effects) → P v) →
  ∀ v, P v.
Proof.
  intros HE HP HO.
  refine (fix IH (v : value) : P v :=
            match v with
            | VEffect intent callbacks => HE intent callbacks (IH intent)
            | VParallelEffects effects =>
                HP effects
                   ((fix all (l : list value) : Forall P l :=
                       match l with
                       | [] => @List.Forall_nil _ P
                       | e :: l' => @List.Forall_cons _ P e l' (IH e) (all l')
                       end) effects)
            | v' => HO v' _ _
            end); simpl; solve [tauto | intros; discriminate].
Qed.

Section Serialization.
Context {World : Type}.
Variable apply_fn : fid → list value → World → outcome value * World.
Variable serialize_method : value → option fid.

Local Abbreviation serialize' := (serialize apply_fn serialize_method).
Local Abbreviation serialize_each' :=
  (serialize_each apply_fn serialize_method).
Local Abbreviation serialize_call := (serialize_call serialize_method).

Lemma serialize_parallel effects :
  serialize' (VParallelEffects effects)
  = mbind (serialize_each' effects) (λ xs,
      mret (PDict [("type", PType "ParallelEffects");
                   ("effects", PList xs)])).
Proof. reflexivity. Qed.

Lemma serialize_other v :
  ¬ is_Effect v → (∀ effects, v ≠ VParallelEffects effects) →
  serialize' v
  = match serialize_method v with
    | Some f => mbind (call_fn apply_fn f [v]) (λ r, mret (PValue r))
    | None => mraise no_serialize_attribute
    end.
Proof.
  intros Hne Hnp. destruct v; try reflexivity.
  - by destruct (Hnp effects).
  - by destruct Hne.
Qed.

(** X15: [serialize] always ends, and the only calls it makes are calls
    of the [serialize] methods of objects met in the tree, each on its own
    object; no handler is called. When no object has such a method,
    nothing is called at all and the state is left as it was. *)
Theorem X15_serialize_calls_serialize_methods_only v :
  ∀ s, ∃ out s' tl,
    serialize' v s = Some (out, s')
    ∧ trace s' = trace s ++ tl
    ∧ Forall serialize_call tl
    ∧ ((∀ x, serialize_method x = None) → s' = s).
Proof.
  induction v as [intent cbs IH|effects IH|v Hne Hnp] using value_tree_ind;
    intros s.
  - simpl. unfold mbind. destruct (has_serialize serialize_method intent).
    + destruct (IH s) as (out & s' & tl & -> & Htr & Hall & Hpure).
      destruct out as [pi|e]; by eexists _, s', tl.
    + exists (Ret (PDict [("type", PType "Effect"); ("intent", PValue intent);
                          ("callbacks", PCallbacks cbs)])), s, [].
      rewrite app_nil_r. by repeat split.
  - rewrite serialize_parallel. unfold mbind at 1.
    assert (Heach : ∃ out s' tl,
              serialize_each' effects s = Some (out, s')
              ∧ trace s' = trace s ++ tl
              ∧ Forall serialize_call tl
              ∧ ((∀ x, serialize_method x = None) → s' = s)).
    { clear -IH. revert s. induction IH as [|e l He _ IHl]; intros s.
      - exists (Ret []), s, []. rewrite app_nil_r. by repeat split.
      - simpl. unfold mbind at 1.
        destruct (He s) as (out & s1 & tl1 & -> & Htr1 & Hall1 & Hp1).
        destruct out as [x|ex].
        + unfold mbind at 1.
          destruct (IHl s1) as (out2 & s2 & tl2 & -> & Htr2 & Hall2 & Hp2).
          destruct out2 as [xs|ex];
            (eexists _, s2, (tl1 ++ tl2);
             split; [reflexivity|];
             split; [by rewrite Htr2, Htr1, app_assoc|];
             split; [by apply Forall_app|];
             intros Hno; by rewrite (Hp2 Hno), (Hp1 Hno)).
        + by exists (Raise ex), s1, tl1. }
    destruct Heach as (out & s' & tl & -> & Htr & Hall & Hpure).
    destruct out as [xs|ex]; by eexists _, s', tl.
  - rewrite serialize_other by done.
    destruct (serialize_method v) as [f|] eqn:Hm.
    + unfold mbind, call_fn.
      destruct (apply_fn f [v] (world s)) as [[r|ex] w] eqn:Hf;
        (eexists _, _, [EvCall f [v] _];
         split; [reflexivity|]; split; [reflexivity|];
         split; [constructor; [by exists v|constructor]|];
         intros Hno; by rewrite Hno in Hm).
    + exists (Raise no_serialize_attribute), s, [].
      rewrite app_nil_r. by repeat split.
Qed.

Hypothesis no_method : ∀ x, serialize_method x = None.

Lemma effect_tree_parallel effects :
  effect_tree (VParallelEffects effects) ↔ Forall effect_tree effects.
Proof.
  simpl. induction effects as [|e l IH]; [by split; [constructor|]|].
  rewrite Forall_cons. by rewrite IH.
Qed.

(** Without methods of their own, [serialize] is decided by the shape of
    the tree: on a tree of Effects it returns a dict, anywhere else it
    raises [AttributeError]; the state is left as it was. *)
Lemma serialize_tree_or_fault v :
  ∀ s,
    (∃ p, serialize' v s = Some (Ret p, s) ∧ is_dict p ∧ effect_tree v)
    ∨ (serialize' v s = Some (Raise no_serialize_attribute, s)
       ∧ ¬ effect_tree v).
Proof using no_method.
  induction v as [intent cbs IH|effects IH|v Hne Hnp] using value_tree_ind;
    intros s.
  - assert (Hplain : ¬ is_Effect intent →
                     (∀ effects, intent ≠ VParallelEffects effects) →
                     has_serialize serialize_method intent = false
                     ∧ (effect_tree (VEffect intent cbs) ↔ True)).
    { intros H1 H2. destruct intent; simpl; rewrite ?no_method; try done.
      by destruct (H2 effects). }
    assert (Hnested : is_Effect intent
                      ∨ (∃ effects, intent = VParallelEffects effects) →
                      has_serialize serialize_method intent = true
                      ∧ (effect_tree (VEffect intent cbs) ↔ effect_tree intent)).
    { intros [H|[effects ->]]; [by destruct intent|done]. }
    assert (Hcase : (is_Effect intent
                     ∨ ∃ effects, intent = VParallelEffects effects)
                    ∨ (¬ is_Effect intent
                       ∧ ∀ effects, intent ≠ VParallelEffects effects)).
    { destruct intent; simpl; try (right; split; [tauto|done]);
        left; [right; by eexists|by left]. }
    destruct Hcase as [Hn|[H1 H2]].
    + destruct (Hnested Hn) as [Hhas Htree].
      change (serialize' (VEffect intent cbs) s)
        with (mbind (if has_serialize serialize_method intent
                     then serialize' intent else mret (PValue intent))
                (λ intent, mret (PDict [("type", PType "Effect");
                                        ("intent", intent);
                                        ("callbacks", PCallbacks cbs)])) s).
      rewrite Hhas. unfold mbind.
      destruct (IH s) as [(p & -> & Hd & Ht)|[-> Ht]].
      * left. eexists. split; [reflexivity|].
        split; [done|by apply Htree].
      * right. split; [done|]. by rewrite Htree.
    + destruct (Hplain H1 H2) as [Hhas Htree].
      change (serialize' (VEffect intent cbs) s)
        with (mbind (if has_serialize serialize_method intent
                     then serialize' intent else mret (PValue intent))
                (λ intent, mret (PDict [("type", PType "Effect");
                                        ("intent", intent);
                                        ("callbacks", PCallbacks cbs)])) s).
      rewrite Hhas. left. eexists. split; [reflexivity|].
      split; [done|]. by apply Htree.
  - rewrite serialize_parallel. unfold mbind.
    assert (Heach :
      (∃ ps, serialize_each' effects s = Some (Ret ps, s)
             ∧ Forall effect_tree effects)
      ∨ (serialize_each' effects s = Some (Raise no_serialize_attribute, s)
         ∧ ¬ Forall effect_tree effects)).
    { clear -IH. induction IH as [|e l He _ IHl].
      - left. by exists [].
      - simpl. unfold mbind.
        destruct (He s) as [(p & -> & _ & Ht)|[-> Ht]].
        + destruct IHl as [(ps & -> & Hts)|[-> Hts]].
          * left. exists (p :: ps). split; [done|by constructor].
          * right. split; [done|]. rewrite Forall_cons. tauto.
        + right. split; [done|]. rewrite Forall_cons. tauto. }
    destruct Heach as [(ps & -> & Hts)|[-> Hts]].
    + left. eexists. split; [reflexivity|].
      split; [done|by apply effect_tree_parallel].
    + right. split; [done|]. by rewrite effect_tree_parallel.
  - right. rewrite serialize_other, no_method by done.
    split; [done|]. destruct v; simpl; try tauto.
    + by destruct (Hnp effects).
    + by destruct Hne.
Qed.

(** X16: when no object has a [serialize] method of its own, [serialize]
    returns on every tree of Effects and raises [AttributeError] on
    anything else, that is, as soon as a [ParallelEffects] in the tree holds
    something that is neither an Effect nor a [ParallelEffects]; in both
    cases the state is left as it was. *)
Theorem X16_serialize_returns_exactly_on_effect_trees v s :
  (effect_tree v → ∃ p, serialize' v s = Some (Ret p, s) ∧ is_dict p)
  ∧ (¬ effect_tree v →
     serialize' v s = Some (Raise no_serialize_attribute, s)).
Proof using no_method.
  destruct (serialize_tree_or_fault v s) as [(p & Hs & Hd & Ht)|[Hs Ht]].
  - split; [by exists p|done].
  - split; [done|by intros _].
Qed.

End Serialization.

(** ** The properties at work on the example environment *)

(** Runs of [perform] on the example environment. *)

Example run_success_chain :
  summary (perform sample_fn Py2 1 intent_A sample_pairs sample_table
                   (State 0 []))
  = Some (Ret (VInt 4), ["hA"; "inc"; "inc"; "inc"]).
Proof. reflexivity. Qed.

Example run_recovery :
  summary (perform sample_fn Py2 1 intent_B sample_pairs sample_table
                   (State 0 []))
  = Some (Ret (VInt 1), ["hB"; "recover"; "inc"]).
Proof. reflexivity. Qed.

(** The callback [mkB] returns [Effect(intent_B)], whose handler raises:
    the exception leaves the outer [perform]; [recover], the error side of
    the next pair, is not called. With one unit of fuel less the inner
    performance cannot be run. *)
Example run_inner_fault :
  summary (perform sample_fn Py2 2 intent_A
                   [(Some "mkB", None); (Some "inc", Some "recover")]
                   sample_table (State 0 []))
  = Some (Raise sample_fault, ["hA"; "mkB"; "hB"])
  ∧ perform sample_fn Py2 1 intent_A
            [(Some "mkB", None); (Some "inc", Some "recover")]
            sample_table (State 0 [])
    = None.
Proof. split; reflexivity. Qed.

Example run_handoff :
  (λ r, match r.1 with
        | Ret (VDeferred d) => Some (origin d, attached d)
        | _ => None
        end)
    <$> perform sample_fn Py2 1 intent_A sample_pairs_deferred sample_table
                (State 0 [])
  = Some (Some (DPending 0,
                [(DcMaybeChain sample_table, None);
                 (DcIdentity, Some (DcFn "recover"));
                 (DcFn "inc", None)])).
Proof. reflexivity. Qed.

Example run_fault_python3 :
  summary (perform sample_fn Py3 1 intent_B [] sample_table (State 0 []))
  = Some (Raise ("TypeError",
                 [VStr "exceptions must derive from BaseException"]),
          ["hB"]).
Proof. reflexivity. Qed.

(** C1 on the example: three pairs attached to [Effect(intent_A)]; the
    values are integers. *)
Lemma C1_witness :
  ∃ e h final w' tr,
    attach (Effect_init ∅ intent_A).2 (Effect_init ∅ intent_A).1
           [(Some "inc", None); (None, Some "boom"); (Some "inc", Some "recover")]
    = Some (e, h)
    ∧ perform_obj sample_fn Py2 1 h e sample_table (State 0 [])
      = Some (Ret final, State w' tr)
    ∧ ev_fn <$> tr = ["hA"; "inc"; "inc"]
    ∧ chained [intent_A; VDict sample_table] tr final.
Proof.
  apply (C1_success_sides_run_once_in_order sample_fn Py2 is_int 0 ∅ intent_A
           [(Some "inc", None); (None, Some "boom"); (Some "inc", Some "recover")]
           sample_table "hA" 0).
  - left. reflexivity.
  - intros v [z ->]. exact I.
  - intros w. exists (VInt 1), (S w). split; [reflexivity|by exists 1%Z].
  - intros f v w Hin [z ->].
    assert (f = "inc") as ->.
    { simpl in Hin. repeat (apply elem_of_cons in Hin as [Hin|Hin]; [congruence|]).
      by apply elem_of_nil in Hin. }
    exists (VInt (z + 1)), (S w). split; [reflexivity|by eexists].
Defined.

(** The handler and both success sides return normally, but [mkA]
    returns an Effect: it is performed in place, so [hA] is called a second
    time and [inc] receives the result of that performance, 1, not what
    [mkA] returned. The calls are not the handler followed by the success
    sides, and the arguments are not chained. *)
Lemma C1_counterexample :
  ∃ e h st',
    attach (Effect_init ∅ intent_A).2 (Effect_init ∅ intent_A).1
           [(Some "mkA", None); (Some "inc", None)]
    = Some (e, h)
    ∧ perform_obj sample_fn Py2 2 h e sample_table (State 0 [])
      = Some (Ret (VInt 2), st')
    ∧ Forall (λ ev, ∃ v, ev_out ev = Ret v) (trace st')
    ∧ ev_fn <$> trace st' = ["hA"; "mkA"; "hA"; "inc"]
    ∧ ev_fn <$> trace st'
      ≠ "hA" :: omap fst ([(Some "mkA", None); (Some "inc", None)]
                          : list cbpair)
    ∧ ev_args <$> trace st'
      = [[intent_A; VDict sample_table]; [VInt 1];
         [intent_A; VDict sample_table]; [VInt 1]]
    ∧ ¬ chained [intent_A; VDict sample_table] (trace st') (VInt 2).
Proof.
  destruct (Effect_init_spec ∅ intent_A) as (_ & _ & Hs0).
  destruct (attach_spec [(Some "mkA", None); (Some "inc", None)] _ _ _ _ Hs0)
    as (e & h & Ha & _ & Hs).
  simpl in Hs.
  exists e, h,
    (State 4 [EvCall "hA" [intent_A; VDict sample_table] (Ret (VInt 1));
              EvCall "mkA" [VInt 1] (Ret (VEffect intent_A []));
              EvCall "hA" [intent_A; VDict sample_table] (Ret (VInt 1));
              EvCall "inc" [VInt 1] (Ret (VInt 2))]).
  split; [exact Ha|]. unfold perform_obj. rewrite Hs.
  split; [reflexivity|]. split; [repeat constructor; by eexists|].
  split; [reflexivity|]. split; [simpl; congruence|].
  split; [reflexivity|].
  simpl. intros (_ & v1 & H1 & _ & v2 & H2 & Harg & _).
  congruence.
Qed.

(** C2 on the example: [hB] raises, the pair without error side is passed
    over, [recover] takes the fault and the last pair runs its success
    side. *)
Lemma C2_witness :
  call sample_fn (perform sample_fn Py2 0) (CPartial "hB" [intent_B])
       [VDict sample_table] (State 0 [])
  = Some (Raise sample_fault, sample_st1)
  ∧ chain_loop sample_fn Py2 (perform sample_fn Py2 0) sample_pairs
      sample_table 0
      ((Some (CPartial "hB" [intent_B]), None)
         :: (lift_pair <$> ([(Some "inc", None)]
                            ++ (Some "inc", Some "recover")
                            :: [(Some "inc", None)])))
      false (VDict sample_table) (State 0 [])
    = chain_loop sample_fn Py2 (perform sample_fn Py2 0) sample_pairs
        sample_table 3 (lift_pair <$> [(Some "inc", None)]) false (VInt 0)
        (State 2 (trace sample_st1
                  ++ [EvCall "recover" [exc_info sample_fault] (Ret (VInt 0))])).
Proof.
  split; [reflexivity|].
  apply (proj2 (C2_fault_goes_to_nearest_error_side sample_fn Py2 0
                  sample_pairs sample_table 0
                  (Some (CPartial "hB" [intent_B])) None
                  (CPartial "hB" [intent_B])
                  [(Some "inc", None)] (Some "inc") "recover"
                  [(Some "inc", None)] false (VDict sample_table)
                  (State 0 []) sample_fault sample_st1
                  eq_refl eq_refl ltac:(by repeat constructor))
               (VInt 0) 2 eq_refl I).
Defined.

(** Under Python 2, on the example: [hB] raises and no pair has an error
    side. *)
Lemma python2_walk_end_example :
  sample_fn "hB" [intent_B; VDict sample_table] 0 = (Raise sample_fault, 1)
  ∧ perform sample_fn Py2 1 intent_B [(Some "inc", None)] sample_table
            (State 0 [])
    = Some (Raise sample_fault, sample_st1).
Proof.
  split; [reflexivity|].
  apply (proj2 (proj2 (proj2
           (python2_walk_end_raises_fault_or_returns_result sample_fn 0
              [(Some "inc", None)] sample_table 0)))
           intent_B "hB" (State 0 []) sample_fault 1);
    [reflexivity|reflexivity|by repeat constructor].
Defined.

(** C3: the end of the walk does not re-raise the captured fault under
    Python 3. [hB] raises [ValueError] on [intent_B] and the Effect has no
    pairs, so the walk completes with the flag set; [raise result[1:]] is
    given the tuple of the exception and its traceback, which is not an
    exception, and the caller of [perform] gets [TypeError] instead of the
    fault of the handler. Nothing but the handler has been called. *)
Theorem C3_python3_caller_does_not_see_the_fault :
  sample_fn "hB" [intent_B; VDict sample_table] 0 = (Raise sample_fault, 1)
  ∧ slice_from_1 (exc_info sample_fault)
    = Ret (VTuple [exn_value sample_fault; VTraceback])
  ∧ perform sample_fn Py3 1 intent_B [] sample_table (State 0 [])
    = Some (Raise ("TypeError",
                   [VStr "exceptions must derive from BaseException"]),
            sample_st1)
  ∧ perform sample_fn Py3 1 intent_B [] sample_table (State 0 [])
    ≠ Some (Raise sample_fault, sample_st1).
Proof.
  split; [reflexivity|]. split; [reflexivity|]. split; [reflexivity|].
  intros H. vm_compute in H. discriminate H.
Qed.

(** C4 on the example: [mkA] returns [Effect(intent_A)], which is
    performed in place; the next step receives 1. *)
Lemma C4_witness :
  perform sample_fn Py2 1 intent_A [] sample_table
          (State 2 (trace sample_st2
                    ++ [EvCall "mkA" [VInt 1] (Ret (VEffect intent_A []))]))
  = Some (Ret (VInt 1),
          State 3 (trace sample_st2
                   ++ [EvCall "mkA" [VInt 1] (Ret (VEffect intent_A []));
                       EvCall "hA" [intent_A; VDict sample_table]
                              (Ret (VInt 1))]))
  ∧ chain_loop sample_fn Py2 (perform sample_fn Py2 1)
      [(Some "mkA", None); (Some "inc", None)] sample_table 1
      ((Some (CFunction "mkA"), None) :: (lift_pair <$> [(Some "inc", None)]))
      false (VInt 1) sample_st2
    = chain_loop sample_fn Py2 (perform sample_fn Py2 1)
        [(Some "mkA", None); (Some "inc", None)] sample_table 2
        (lift_pair <$> [(Some "inc", None)]) false (VInt 1)
        (State 3 (trace sample_st2
                  ++ [EvCall "mkA" [VInt 1] (Ret (VEffect intent_A []));
                      EvCall "hA" [intent_A; VDict sample_table]
                             (Ret (VInt 1))])).
Proof.
  split; [reflexivity|].
  refine (proj2 (proj2 (C4_returned_effect_performed_in_place sample_fn Py2 1
                   [(Some "mkA", None); (Some "inc", None)] sample_table 1
                   (Some (CFunction "mkA")) None (CFunction "mkA")
                   (lift_pair <$> [(Some "inc", None)]) false (VInt 1)
                   sample_st2 intent_A []
                   (State 2 (trace sample_st2
                             ++ [EvCall "mkA" [VInt 1]
                                        (Ret (VEffect intent_A []))]))
                   eq_refl eq_refl)
                 (VInt 1) _ eq_refl) _).
  simpl. tauto.
Defined.


(** C6 on the example: [hA] is called on [intent_A] and the table. *)
Lemma C6_witness :
  sample_table !! type_of intent_A = Some "hA"
  ∧ perform sample_fn Py2 1 intent_A sample_pairs sample_table (State 0 [])
    = after_dispatch sample_fn Py2 (perform sample_fn Py2 0) sample_pairs
        sample_table 0 (lift_pair <$> sample_pairs) (false, VInt 1)
        (State 1 [EvCall "hA" [intent_A; VDict sample_table] (Ret (VInt 1))]).
Proof.
  split; [reflexivity|].
  apply (proj1 (C6_table_entry_called_with_intent_and_table sample_fn Py2 0
                  intent_A sample_pairs sample_table "hA" (State 0 [])
                  eq_refl)).
Defined.

(** A table entry written as a function of the intent alone cannot be
    used: [perform] calls it with the intent and the table, the call raises
    [TypeError], and the walk treats that as the handler's fault. *)
Lemma C6_counterexample :
  sample_table !! type_of intent_U = Some "unary"
  ∧ sample_fn "unary" [intent_U] 0 = (Ret (VInt 7), 1)
  ∧ ∃ st',
      perform sample_fn Py2 1 intent_U [] sample_table (State 0 [])
      = Some (Raise ("TypeError", [VStr "wrong number of arguments"]), st')
      ∧ ev_args <$> trace st' = [[intent_U; VDict sample_table]]
      ∧ ev_args <$> trace st' ≠ [[intent_U]].
Proof.
  split; [reflexivity|]. split; [reflexivity|].
  exists (State 0 [EvCall "unary" [intent_U; VDict sample_table]
                     (Raise ("TypeError", [VStr "wrong number of arguments"]))]).
  split; [reflexivity|]. split; [reflexivity|]. simpl. congruence.
Qed.

(** C7 on the example: no handler at all for [intent_Z]; the table entry
    wins over the [perform_effect] method of an intent of class [A]. *)
Lemma C7_witness :
  perform sample_fn Py2 1 intent_Z sample_pairs sample_table (State 0 [])
  = Some (Raise ("NoEffectHandlerError", [intent_Z]), State 0 [])
  ∧ perform sample_fn Py2 1 (VObject "A" VNone (Some "inc")) [] sample_table
            (State 0 [])
    = mbind (mtry (call_fn sample_fn "hA"
                     [VObject "A" VNone (Some "inc"); VDict sample_table])
                  (λ v, (false, v)) (λ e, (true, exc_info e)))
            (after_dispatch sample_fn Py2 (perform sample_fn Py2 0) []
               sample_table 0 (lift_pair <$> []))
            (State 0 []).
Proof.
  split.
  - apply (proj2 (proj2 (C7_handler_resolution_precedence sample_fn Py2 0
                           intent_Z sample_pairs sample_table (State 0 []))));
      reflexivity.
  - apply (proj1 (C7_handler_resolution_precedence sample_fn Py2 0
                    (VObject "A" VNone (Some "inc")) [] sample_table
                    (State 0 []))).
    reflexivity.
Defined.

(** C8 on the example: [on] on a fresh [Effect(intent_A)]. *)
Lemma C8_witness :
  snapshot (Effect_init ∅ intent_A).2 (Effect_init ∅ intent_A).1
  = Some (VEffect intent_A [])
  ∧ ∃ e' h',
      on (Effect_init ∅ intent_A).2 (Effect_init ∅ intent_A).1 (Some "inc") None
      = Some (e', h')
      ∧ (Effect_init ∅ intent_A).2 !! e' = None
      ∧ snapshot h' e' = Some (VEffect intent_A [(Some "inc", None)])
      ∧ snapshot h' (Effect_init ∅ intent_A).1 = Some (VEffect intent_A []).
Proof.
  assert (Hs0 : snapshot (Effect_init ∅ intent_A).2 (Effect_init ∅ intent_A).1
                = Some (VEffect intent_A [])) by reflexivity.
  split; [exact Hs0|].
  destruct (C8_on_builds_new_effect_and_keeps_original
              (Effect_init ∅ intent_A).2 (Effect_init ∅ intent_A).1
              intent_A [] "inc" (Some "inc") None Hs0)
    as (_ & _ & _ & e' & h' & Hon & Hnew & _ & Hs' & Hs & _).
  exists e', h'. repeat split; assumption.
Defined.

(** C10 on the example: [intent_Z] has no handler; pairs with error sides
    are attached. *)
Lemma C10_witness :
  sample_table !! type_of intent_Z = None
  ∧ getattr_perform_effect intent_Z = None
  ∧ ∃ st',
      perform sample_fn Py2 1 intent_Z
              [(Some "inc", Some "recover"); (None, Some "recover")]
              sample_table (State 5 [])
      = Some (Raise ("NoEffectHandlerError", [intent_Z]), st')
      ∧ trace st' = [] ∧ world st' = 5.
Proof.
  split; [reflexivity|]. split; [reflexivity|].
  apply (C10_no_handler_runs_no_callback sample_fn Py2 0 intent_Z
           [(Some "inc", Some "recover"); (None, Some "recover")]
           sample_table (State 5 []) eq_refl eq_refl).
Defined.

(** C9 on the example: two children, the first pending until after the
    second has completed. *)
Lemma C9_witness :
  ∃ d st',
    perform_obj sample_fn Py2 4
      (parallel ∅ ((λ c, VEffect c.1 c.2) <$> sample_children)).2
      (parallel ∅ ((λ c, VEffect c.1 c.2) <$> sample_children)).1
      sample_table (State 0 [])
    = Some (Ret (VDeferred d), st')
    ∧ ev_fn <$> trace st' = ["hD"; "hA"]
    ∧ resolves_to sample_fn Py2 sample_completes sample_finish_time 5 d
        (VList [VInt 104; VInt 1]).
Proof.
  pose proof (C9_parallel_results_in_input_order sample_fn Py2
                sample_completes sample_finish_time 3 ∅ sample_children
                sample_table (State 0 [])
                [Ret (VDeferred
                        (DAddCallbacks
                           (DAddCallbacks (DPending 3)
                              (DcMaybeChain sample_table) None)
                           (DcFn "inc") None));
                 Ret (VInt 1)]
                (State 2 [EvCall "hD" [VObject "D" (VInt 3) None;
                                       VDict sample_table]
                            (Ret (VDeferred (DPending 3)));
                          EvCall "hA" [intent_A; VDict sample_table]
                            (Ret (VInt 1))])
                [VInt 104; VInt 1]) as H.
  destruct H as (_ & Hperf & Hres).
  - reflexivity.
  - reflexivity.
  - repeat constructor.
    + intros [w tr].
      exists (State (S w) (tr ++ [EvCall "inc" [VInt 103] (Ret (VInt 104))])).
      reflexivity.
    + intros s. exists s. reflexivity.
  - eexists _, _. split; [exact Hperf|]. split; [reflexivity|exact Hres].
Defined.

(** *** The further properties on the example *)

Example run_serialize :
  serialize sample_fn2 sample_method sample_tree (State 0 [])
  = Some (Ret (PDict
                 [("type", PType "Effect");
                  ("intent",
                   PDict [("type", PType "ParallelEffects");
                          ("effects",
                           PList [PDict [("type", PType "Effect");
                                         ("intent", PValue (VStr "A"));
                                         ("callbacks", PCallbacks [])];
                                  PDict [("type", PType "Effect");
                                         ("intent", PValue (VInt 3));
                                         ("callbacks", PCallbacks [])]])]);
                  ("callbacks", PCallbacks [(Some "inc", None)])]),
          State 1 [EvCall "describe" [intent_A] (Ret (VStr "A"))]).
Proof. reflexivity. Qed.

(** X1 on the example: [mkB] returns [Effect(intent_B)], whose handler
    raises; the pair with [recover] is not reached. *)
Lemma X1_witness :
  chain_loop sample_fn Py2 (perform sample_fn Py2 1)
    [(Some "mkB", None); (Some "inc", Some "recover")] sample_table 1
    ((Some (CFunction "mkB"), None)
       :: (lift_pair <$> [(Some "inc", Some "recover")]))
    false (VInt 1) sample_st2
  = Some (Raise sample_fault,
          State 3 (trace (sample_st3 "mkB" (VEffect intent_B []))
                   ++ [EvCall "hB" [intent_B; VDict sample_table]
                              (Raise sample_fault)])).
Proof.
  apply (X1_inner_fault_leaves_outer_walk sample_fn Py2 1
           [(Some "mkB", None); (Some "inc", Some "recover")] sample_table 1
           (Some (CFunction "mkB")) None (CFunction "mkB")
           (lift_pair <$> [(Some "inc", Some "recover")]) false (VInt 1)
           sample_st2 intent_B [] (sample_st3 "mkB" (VEffect intent_B [])));
    reflexivity.
Defined.

(** X2 on the example: [mkZ] returns [Effect(intent_Z)], for which there is
    no handler. *)
Lemma X2_witness :
  chain_loop sample_fn2 Py2 (perform sample_fn2 Py2 1)
    [(Some "mkZ", None); (None, Some "recover")] sample_table 1
    ((Some (CFunction "mkZ"), None)
       :: (lift_pair <$> [(None, Some "recover")]))
    false (VInt 1) sample_st2
  = Some (Raise ("NoEffectHandlerError", [intent_Z]),
          sample_st3 "mkZ" (VEffect intent_Z [])).
Proof.
  apply (X2_nested_missing_handler_surfaces sample_fn2 Py2 0
           [(Some "mkZ", None); (None, Some "recover")] sample_table 1
           (Some (CFunction "mkZ")) None (CFunction "mkZ")
           (lift_pair <$> [(None, Some "recover")]) false (VInt 1)
           sample_st2 intent_Z []);
    reflexivity.
Defined.

(** X3 on the example: [on(boom, recover)] on [Effect(intent_A)]. *)
Lemma X3_witness :
  ∃ e',
    perform sample_fn Py2 1 intent_A
      [(Some "boom", Some "recover"); (Some "inc", None)] sample_table
      (State 0 [])
    = Some (Raise e',
            State 2 ([] ++ [EvCall "hA" [intent_A; VDict sample_table]
                                   (Ret (VInt 1));
                            EvCall "boom" [VInt 1]
                                   (Raise ("KeyError", [VStr "k"]))]))
    ∧ (Py2 = Py2 → e' = ("KeyError", [VStr "k"])).
Proof.
  apply (X3_error_side_does_not_guard_its_own_pair sample_fn Py2 0 intent_A
           "hA" "boom" "recover" [(Some "inc", None)] sample_table
           (State 0 []) (VInt 1) 1 ("KeyError", [VStr "k"]) 2);
    try reflexivity; try exact I; by repeat constructor.
Defined.

(** X4 on the example: [on_success(boom)] then [on_error(recover)]. *)
Lemma X4_witness :
  perform sample_fn Py2 1 intent_A
    [(Some "boom", None); (None, Some "recover")] sample_table (State 0 [])
  = Some (Ret (VInt 0),
          State 3 ([] ++ [EvCall "hA" [intent_A; VDict sample_table]
                                 (Ret (VInt 1));
                          EvCall "boom" [VInt 1]
                                 (Raise ("KeyError", [VStr "k"]));
                          EvCall "recover" [exc_info ("KeyError", [VStr "k"])]
                                 (Ret (VInt 0))])).
Proof.
  apply (proj1 (X4_on_error_after_on_success_guards_both sample_fn Py2 0
                  intent_A "hA" "boom" "recover" sample_table (State 0 [])
                  (VInt 0) eq_refl I)
               (VInt 1) 1 ("KeyError", [VStr "k"]) 2 3);
    try reflexivity; exact I.
Defined.

(** X5 on the example: [after(recover)] on [Effect(intent_B)], whose
    handler raises. *)
Lemma X5_witness :
  ∃ e' h',
    after (Effect_init ∅ intent_B).2 (Effect_init ∅ intent_B).1 "recover"
    = Some (e', h')
    ∧ perform_obj sample_fn Py2 1 h' e' sample_table (State 0 [])
      = Some (Ret (VInt 0),
              State 2 ([] ++ [EvCall "hB" [intent_B; VDict sample_table]
                                     (Raise sample_fault);
                              EvCall "recover" [exc_info sample_fault]
                                     (Ret (VInt 0))])).
Proof.
  assert (Hs : snapshot (Effect_init ∅ intent_B).2 (Effect_init ∅ intent_B).1
               = Some (VEffect intent_B [])) by reflexivity.
  apply (X5_after_runs_on_both_paths sample_fn Py2 0
           (Effect_init ∅ intent_B).2 (Effect_init ∅ intent_B).1 intent_B
           "hB" "recover" sample_table (State 0 []) (Raise sample_fault) 1
           (VInt 0) 2 Hs);
    try reflexivity; exact I.
Defined.

(** X6 on the example: [mkED] returns an Effect whose performance hands off
    to the Deferred of its handler; the outer pair with [recover] follows
    the inner pair with [inc] on that Deferred. *)
Lemma X6_witness :
  ∃ d',
    chain_loop sample_fn2 Py2 (perform sample_fn2 Py2 1)
      [(Some "mkED", None); (None, Some "recover")] sample_table 1
      ((Some (CFunction "mkED"), None)
         :: (lift_pair <$> [(None, Some "recover")]))
      false (VInt 1) sample_st2
    = Some (Ret (VDeferred d'),
            State 3 (trace (sample_st3 "mkED"
                              (VEffect (VObject "D" (VInt 3) None)
                                       [(Some "inc", None)]))
                     ++ [EvCall "hD" [VObject "D" (VInt 3) None;
                                      VDict sample_table]
                                (Ret (VDeferred (DPending 3)))]))
    ∧ origin d' = origin sample_deferred
    ∧ attached d'
      = attached sample_deferred
        ++ (slot <$> drop 1 [(Some "mkED", None); (None, Some "recover")]).
Proof.
  apply (X6_nested_handoff_appends_outer_pairs sample_fn2 Py2 1
           [(Some "mkED", None); (None, Some "recover")] sample_table 1
           (Some (CFunction "mkED")) None (CFunction "mkED")
           (lift_pair <$> [(None, Some "recover")]) false (VInt 1)
           sample_st2 (VObject "D" (VInt 3) None) [(Some "inc", None)]
           (sample_st3 "mkED" (VEffect (VObject "D" (VInt 3) None)
                                       [(Some "inc", None)]))
           sample_deferred);
    reflexivity.
Defined.

(** X7 on the example: [on_success(inc)] on a fresh [Effect(intent_A)]. *)
Lemma X7_witness :
  ∃ e' h' cl',
    on (Effect_init ∅ intent_A).2 (Effect_init ∅ intent_A).1 (Some "inc") None
    = Some (e', h')
    ∧ h' !! e' = Some (CEffect intent_A cl')
    ∧ h' !! cl' = Some (CList ([] ++ [(Some "inc", None)]))
    ∧ (Effect_init ∅ intent_A).2 !! e' = None
    ∧ (Effect_init ∅ intent_A).2 !! cl' = None
    ∧ cl' ≠ e'.
Proof.
  assert (Hs : snapshot (Effect_init ∅ intent_A).2 (Effect_init ∅ intent_A).1
               = Some (VEffect intent_A [])) by reflexivity.
  destruct (on (Effect_init ∅ intent_A).2 (Effect_init ∅ intent_A).1
               (Some "inc") None) as [[e' h']|] eqn:Hon;
    [|vm_compute in Hon; discriminate Hon].
  destruct (X7_on_gives_the_new_effect_a_list_of_its_own
              (Effect_init ∅ intent_A).2 (Effect_init ∅ intent_A).1
              (Some "inc") None intent_A [] e' h' Hs Hon) as [cl' H].
  by exists e', h', cl'.
Defined.

(** X8 on the example: [on_success(inc)] and [on_error(recover)], both on
    the same fresh [Effect(intent_A)]. *)
Lemma X8_witness :
  ∃ e1 h1 e2 h2,
    on (Effect_init ∅ intent_A).2 (Effect_init ∅ intent_A).1 (Some "inc") None
    = Some (e1, h1)
    ∧ on h1 (Effect_init ∅ intent_A).1 None (Some "recover") = Some (e2, h2)
    ∧ snapshot h2 (Effect_init ∅ intent_A).1 = Some (VEffect intent_A [])
    ∧ snapshot h2 e1 = Some (VEffect intent_A ([] ++ [(Some "inc", None)]))
    ∧ snapshot h2 e2 = Some (VEffect intent_A ([] ++ [(None, Some "recover")]))
    ∧ e1 ≠ e2 ∧ e1 ≠ (Effect_init ∅ intent_A).1
    ∧ e2 ≠ (Effect_init ∅ intent_A).1.
Proof.
  assert (Hs : snapshot (Effect_init ∅ intent_A).2 (Effect_init ∅ intent_A).1
               = Some (VEffect intent_A [])) by reflexivity.
  destruct (on (Effect_init ∅ intent_A).2 (Effect_init ∅ intent_A).1
               (Some "inc") None) as [[e1 h1]|] eqn:Hon1;
    [|vm_compute in Hon1; discriminate Hon1].
  destruct (on h1 (Effect_init ∅ intent_A).1 None (Some "recover"))
    as [[e2 h2]|] eqn:Hon2.
  - exists e1, h1, e2, h2. split; [reflexivity|]. split; [exact Hon2|].
    exact (X8_branches_from_one_effect_are_independent
             (Effect_init ∅ intent_A).2 (Effect_init ∅ intent_A).1 intent_A []
             (Some "inc") None None (Some "recover") e1 h1 e2 h2 Hs Hon1 Hon2).
  - vm_compute in Hon1. inversion Hon1; subst e1 h1.
    vm_compute in Hon2. discriminate Hon2.
Defined.

(** X9 on the example: a list with one pair is given to [with_callbacks]
    and a second pair is appended to it afterwards. *)
Lemma X9_witness :
  (with_callbacks (alloc ∅ (CList [(Some "inc", None)])).2 intent_A
                  (alloc ∅ (CList [(Some "inc", None)])).1).2
    !! (with_callbacks (alloc ∅ (CList [(Some "inc", None)])).2 intent_A
                       (alloc ∅ (CList [(Some "inc", None)])).1).1
  = Some (CEffect intent_A (alloc ∅ (CList [(Some "inc", None)])).1)
  ∧ snapshot
      (<[(alloc ∅ (CList [(Some "inc", None)])).1
         := CList [(Some "inc", None); (None, Some "recover")]]>
         (with_callbacks (alloc ∅ (CList [(Some "inc", None)])).2 intent_A
                         (alloc ∅ (CList [(Some "inc", None)])).1).2)
      (with_callbacks (alloc ∅ (CList [(Some "inc", None)])).2 intent_A
                      (alloc ∅ (CList [(Some "inc", None)])).1).1
    = Some (VEffect intent_A [(Some "inc", None); (None, Some "recover")]).
Proof.
  assert (Hcl : (alloc ∅ (CList [(Some "inc", None)])).2
                  !! (alloc ∅ (CList [(Some "inc", None)])).1
                = Some (CList [(Some "inc", None)])) by reflexivity.
  exact (X9_with_callbacks_shares_the_given_list
           (alloc ∅ (CList [(Some "inc", None)])).2 intent_A
           (alloc ∅ (CList [(Some "inc", None)])).1
           [(Some "inc", None)]
           [(Some "inc", None); (None, Some "recover")] Hcl).
Defined.

(** X10 on the example: three children, the third of which raises. *)
Lemma X10_witness :
  ∃ d,
    perform sample_fn Py2 2
      (VParallelEffects
         ((λ c, VEffect c.1 c.2) <$> sample_children ++ [(intent_B, [])]))
      [(Some "inc", None)] sample_table (State 0 [])
    = Some (Ret (VDeferred d),
            State 3 [EvCall "hD" [VObject "D" (VInt 3) None; VDict sample_table]
                            (Ret (VDeferred (DPending 3)));
                     EvCall "hA" [intent_A; VDict sample_table] (Ret (VInt 1));
                     EvCall "hB" [intent_B; VDict sample_table]
                            (Raise sample_fault)])
    ∧ origin d
      = gatherResults
          (to_deferred <$> [Ret (VDeferred sample_deferred); Ret (VInt 1);
                            Raise sample_fault])
    ∧ attached d
      = (DcMaybeChain sample_table, None) :: (slot <$> [(Some "inc", None)])
    ∧ length [Ret (VDeferred sample_deferred); Ret (VInt 1);
              Raise sample_fault]
      = length (sample_children ++ [(intent_B, [])])
    ∧ ∀ i e,
        [Ret (VDeferred sample_deferred); Ret (VInt 1); Raise sample_fault]
          !! i = Some (Raise e) →
        (to_deferred <$> [Ret (VDeferred sample_deferred); Ret (VInt 1);
                          Raise sample_fault]) !! i
        = Some (DFail (exn_value e)).
Proof.
  apply (X10_parallel_child_fault_does_not_stop_the_others sample_fn Py2 1
           sample_table (sample_children ++ [(intent_B, [])])
           [(Some "inc", None)] (State 0 [])
           [Ret (VDeferred sample_deferred); Ret (VInt 1); Raise sample_fault]);
    reflexivity.
Defined.


(** X12 on the example: the Deferred fires with [Effect(intent_A)], which
    [hA] handles. *)
Lemma X12_witness :
  resolve sample_fn Py2 (λ _, Succeeded (VEffect intent_A []))
    sample_finish_time 2
    (addCallback (DPending 0) (DcMaybeChain sample_table)) (State 0 [])
  = Some (Ret (Succeeded (VInt 1)),
          State 1 [EvCall "hA" [intent_A; VDict sample_table] (Ret (VInt 1))]).
Proof.
  apply (proj1 (X12_effect_fired_by_the_deferred_is_performed sample_fn Py2
                  (λ _, Succeeded (VEffect intent_A [])) sample_finish_time
                  0 0 sample_table intent_A [] (State 0 []) eq_refl));
    [reflexivity|exact (λ H : False, H)].
Defined.

(** X13 on the example: [mkA], attached by the hand-off, returns
    [Effect(intent_A)]; [hA] is not called. *)
Lemma X13_witness :
  resolve sample_fn Py2 sample_completes sample_finish_time 2
    (_chain_deferred (DPending 0) [(Some "mkA", None)]) (State 0 [])
  = Some (Ret (Succeeded (VEffect intent_A [])),
          State 1 ([] ++ [EvCall "mkA" [VInt 100]
                                 (Ret (VEffect intent_A []))])).
Proof.
  apply (X13_effect_returned_after_handoff_is_not_performed sample_fn Py2
           sample_completes sample_finish_time 0 (DPending 0) "mkA" None
           (State 0 []) (VInt 100) (State 0 []) intent_A [] 1);
    reflexivity.
Defined.

(** X14 on the example: [hB] raises and the only pair has no error side. *)
Lemma X14_witness :
  perform sample_fn Py3 1 intent_B [(Some "inc", None)] sample_table
    (State 0 [])
  = Some (Raise ("TypeError",
                 [VStr "exceptions must derive from BaseException"]),
          State 1 ([] ++ [EvCall "hB" [intent_B; VDict sample_table]
                                 (Raise sample_fault)])).
Proof.
  apply (X14_python3_final_raise_is_a_type_error sample_fn 0 intent_B "hB"
           [(Some "inc", None)] sample_table (State 0 []) sample_fault 1);
    [reflexivity|reflexivity|by repeat constructor].
Defined.

(** X16 on the example: a tree of Effects, no object with a method. *)
Lemma X16_witness :
  ∃ p,
    serialize sample_fn no_method_at_all sample_tree (State 0 [])
    = Some (Ret p, State 0 [])
    ∧ is_dict p.
Proof.
  apply (proj1 (X16_serialize_returns_exactly_on_effect_trees sample_fn
                  no_method_at_all (λ _, eq_refl) sample_tree (State 0 []))).
  exact (conj I (conj I I)).
Defined.

(** X17 on the example: the Deferred fires with 100; the pairs attached
    are [inc], an error side and [inc] again. *)
Lemma X17_witness :
  ∃ final s2,
    resolve sample_fn Py2 sample_completes sample_finish_time
      (length [(Some "inc", None); (None, Some "boom");
               (Some "inc", Some "recover")] + 1)
      (_chain_deferred (DPending 0)
         [(Some "inc", None); (None, Some "boom");
          (Some "inc", Some "recover")])
      (State 0 [])
    = Some (Ret (Succeeded final), s2)
    ∧ chain_loop sample_fn Py2 (perform sample_fn Py2 0)
        [(Some "inc", None); (None, Some "boom");
         (Some "inc", Some "recover")] sample_table 1
        (lift_pair <$> [(Some "inc", None); (None, Some "boom");
                        (Some "inc", Some "recover")])
        false (VInt 100) (State 0 [])
      = Some (Ret final, s2).
Proof.
  apply (X17_handoff_keeps_the_success_path sample_fn Py2 sample_completes
           sample_finish_time is_int 0
           [(Some "inc", None); (None, Some "boom");
            (Some "inc", Some "recover")] sample_table
           [(Some "inc", None); (None, Some "boom");
            (Some "inc", Some "recover")]).
  - intros v [z ->]. exact I.
  - intros f v w Hin [z ->].
    assert (f = "inc") as ->.
    { simpl in Hin. repeat (apply elem_of_cons in Hin as [Hin|Hin]; [congruence|]).
      by apply elem_of_nil in Hin. }
    exists (VInt (z + 1)), (S w). split; [reflexivity|by eexists].
  - reflexivity.
  - by exists 100%Z.
Defined.
